(** * Data Analyzer Pro: the base-name and statistics engine

    A shallow embedding of the analytical core of [app.py] (the same code is
    repeated in [app_fixed.py]): [extract_base_name], [calculate_statistics],
    [calculate_base_statistics], the column resolution loops, the base-name
    mapping built when a workbook is loaded, and the filters of the pages.

    Text.  A Python [str] is a [string]; the development covers 7-bit text:
    [upper], [lower] and [strip] act on the code points below 128 as Python's
    do, and leave the others alone.

    Tables.  A pandas frame is a list of column names and a list of rows, a
    row being the list of its cells in column order.  Cells are kept in their
    [astype(str)] form, so a missing cell is the text [nan].

    Failure.  Code that can raise returns a [result]; [extract_base_name]
    returns an [option], Python's [None] being [None]. *)

From Equations Require Import Equations.
From stdpp Require Import gmap strings list sorting.
From Stdlib Require Import QArith.
Close Scope Q_scope.



Abbreviation ascii := Ascii.ascii.

#[local] Arguments String.append !_ _ / : simpl nomatch.

(** ** Exceptions *)

Inductive exn : Type :=
| KeyError (key : string)
| ZeroDivisionError
| ReError (pattern : string).

Inductive result (A : Type) : Type :=
| Ok (a : A)
| Raise (e : exn).
Arguments Ok {A} a.
Arguments Raise {A} e.

Definition rbind {A B : Type} (m : result A) (f : A → result B) : result B :=
  match m with
  | Ok a => f a
  | Raise e => Raise e
  end.

Notation "'do' x <- m ; k" := (rbind m (fun x => k))
  (at level 10, x name, m at level 100, k at level 200).

(** ** Python strings *)

Module PyStr.

(** [str.isspace] on one character: TAB, LF, VT, FF, CR, FS, GS, RS, US and
    the space. *)
Definition is_space (c : ascii) : bool :=
  let n := Ascii.nat_of_ascii c in
  ((9 <=? n) && (n <=? 13)) || ((28 <=? n) && (n <=? 32)).

Definition is_lower_char (c : ascii) : bool :=
  let n := Ascii.nat_of_ascii c in (97 <=? n) && (n <=? 122).

Definition is_upper_char (c : ascii) : bool :=
  let n := Ascii.nat_of_ascii c in (65 <=? n) && (n <=? 90).

Definition upper_char (c : ascii) : ascii :=
  if is_lower_char c then Ascii.ascii_of_nat (Ascii.nat_of_ascii c - 32) else c.

Definition lower_char (c : ascii) : ascii :=
  if is_upper_char c then Ascii.ascii_of_nat (Ascii.nat_of_ascii c + 32) else c.

Fixpoint map_chars (f : ascii → ascii) (s : string) : string :=
  match s with
  | EmptyString => EmptyString
  | String c s' => String (f c) (map_chars f s')
  end.

(** [s.upper()] and [s.lower()]. *)
Definition upper (s : string) : string := map_chars upper_char s.
Definition lower (s : string) : string := map_chars lower_char s.

(** [s.lstrip()], [s.rstrip()] and [s.strip()]. *)
Fixpoint lstrip (s : string) : string :=
  match s with
  | EmptyString => EmptyString
  | String c s' => if is_space c then lstrip s' else s
  end.

Fixpoint rstrip (s : string) : string :=
  match s with
  | EmptyString => EmptyString
  | String c s' =>
      match rstrip s' with
      | EmptyString => if is_space c then EmptyString else String c EmptyString
      | r => String c r
      end
  end.

Definition strip (s : string) : string := rstrip (lstrip s).

(** [s.startswith(p)]. *)
Fixpoint startswith (p s : string) : bool :=
  match p, s with
  | EmptyString, _ => true
  | String _ _, EmptyString => false
  | String a p', String b s' => bool_decide (a = b) && startswith p' s'
  end.

(** [p in s]: some position of [s] starts with [p]. *)
Fixpoint contains (p s : string) : bool :=
  startswith p s ||
  match s with
  | EmptyString => false
  | String _ s' => contains p s'
  end.

(** [s[n:]]. *)
Fixpoint str_drop (n : nat) (s : string) : string :=
  match n, s with
  | O, _ => s
  | S _, EmptyString => EmptyString
  | S n', String _ s' => str_drop n' s'
  end.

(** [s.partition(sep)] at the first occurrence of [sep]: the text before it
    and the text after it, [None] when [sep] does not occur. *)
Fixpoint str_partition (sep s : string) : option (string * string) :=
  if startswith sep s then Some (EmptyString, str_drop (String.length sep) s)
  else
    match s with
    | EmptyString => None
    | String c s' =>
        match str_partition sep s' with
        | Some (a, b) => Some (String c a, b)
        | None => None
        end
    end.

Lemma str_drop_length (n : nat) (s : string) :
  String.length (str_drop n s) = String.length s - n.
Proof.
  revert s; induction n as [|n IH]; intros [|c s]; simpl; auto with lia.
Qed.

Lemma startswith_length (p s : string) :
  startswith p s = true → String.length p <= String.length s.
Proof.
  revert s; induction p as [|a p IH]; intros [|b s]; simpl; try lia; try done.
  intros [_ H]%andb_true_iff. apply IH in H. lia.
Qed.

Lemma str_partition_shorter (c : ascii) (sep s a b : string) :
  str_partition (String c sep) s = Some (a, b) →
  String.length b < String.length s.
Proof.
  revert a b; induction s as [|d s IH]; intros a b; simpl.
  - done.
  - destruct (bool_decide (c = d) && startswith sep s) eqn:E.
    + intros [= <- <-]. apply andb_true_iff in E as [_ E].
      apply startswith_length in E. rewrite str_drop_length. lia.
    + destruct (str_partition (String c sep) s) as [[a' b']|] eqn:Ep; [|done].
      intros [= <- <-]. specialize (IH _ _ eq_refl). lia.
Qed.

Definition inspect {A : Type} (a : A) : {b : A | a = b} := exist _ a eq_refl.

(** [s.split(sep)] for a separator that is not empty: cut at the first
    occurrence, then go on in the text after it.  (Python refuses the empty
    separator with a ValueError; the program never passes one, and the clause
    for it here returns the text whole.) *)
Equations? str_split (sep s : string) : list string by wf (String.length s) lt :=
  str_split EmptyString s := [s];
  str_split (String c sep) s with inspect (str_partition (String c sep) s) := {
    | exist _ (Some (a, b)) Hp => a :: str_split (String c sep) b
    | exist _ None _ => [s] }.
Proof. exact (str_partition_shorter _ _ _ _ _ Hp). Defined.

(** [parts[-1]] of a list that is not empty. *)
Definition last_part (parts : list string) : string := default EmptyString (last parts).

(** Every character passes the test. *)
Fixpoint all_chars (P : ascii → bool) (s : string) : bool :=
  match s with
  | EmptyString => true
  | String c s' => P c && all_chars P s'
  end.

Definition first_char (s : string) : option ascii :=
  match s with
  | EmptyString => None
  | String c _ => Some c
  end.

Fixpoint last_char (s : string) : option ascii :=
  match s with
  | EmptyString => None
  | String c EmptyString => Some c
  | String _ s' => last_char s'
  end.

(** The text starts or ends with a whitespace character. *)
Definition has_outer_space (s : string) : bool :=
  from_option is_space false (first_char s) || from_option is_space false (last_char s).

(** The text occurs inside: [s = a ++ p ++ b]. *)
Definition substring_of (p s : string) : Prop := ∃ a b : string, s = a +:+ p +:+ b.

End PyStr.

Import PyStr.

(** ** Tables *)

(** A frame: its column names and its rows, every row listing its cells in
    column order, in their [astype(str)] form. *)
Record DataFrame : Type := {
  columns : list string;
  rows : list (list string)
}.

(** [len(data)]. *)
Definition len (data : DataFrame) : nat := length (rows data).

(** [col in data.columns]. *)
Definition has_column (col : string) (data : DataFrame) : bool :=
  bool_decide (col ∈ columns data).

(** The position of a column name among the columns. *)
Definition col_index (data : DataFrame) (col : string) : option nat :=
  fst <$> list_find (λ c, c = col) (columns data).

(** The cell of a row under a column. *)
Definition cell_at (i : nat) (row : list string) : string := row !!! i.

(** [data[col].astype(str)]: the cells of the column, row by row; a name
    that is no column raises KeyError. *)
Definition getitem (data : DataFrame) (col : string) : result (list string) :=
  match col_index data col with
  | Some i => Ok (cell_at i <$> rows data)
  | None => Raise (KeyError col)
  end.

(** [data[mask]]: the rows at which the mask holds. *)
Definition select (mask : list bool) (data : DataFrame) : DataFrame :=
  {| columns := columns data;
     rows := fst <$> filter (λ rm, rm.2 = true) (zip (rows data) mask) |}.

(** [series.str.lower()], [series.str.strip()], [series.str.upper()]. *)
Definition str_lower (series : list string) : list string := lower <$> series.
Definition str_strip (series : list string) : list string := strip <$> series.
Definition str_upper (series : list string) : list string := upper <$> series.

(** [series.str.contains(pat, na=False)] for a pattern that holds no regular
    expression metacharacter, as the three patterns of the status tests are:
    the search for such a pattern is the search for the text itself. *)
Definition str_contains (pat : string) (series : list string) : list bool :=
  contains pat <$> series.

(** [series.isin(values)]. *)
Definition isin (values : list string) (series : list string) : list bool :=
  (λ v, bool_decide (v ∈ values)) <$> series.

(** [m1 & m2], [m1 | m2] and [~m] on masks. *)
Definition mask_and (m1 m2 : list bool) : list bool := zip_with andb m1 m2.
Definition mask_or (m1 m2 : list bool) : list bool := zip_with orb m1 m2.
Definition mask_not (m : list bool) : list bool := negb <$> m.

(** ** extract_base_name *)

Definition extract_base_name (base_value : string) : option string :=
  if bool_decide (base_value = "") || bool_decide (base_value = "NAN")
     || bool_decide (base_value = "NONE")
  then None
  else
    let base_str := upper (strip base_value) in
    let fallback := if bool_decide (base_str = "") then None else Some base_str in
    if contains "-US-" base_str then
      let parts := str_split "-US-" base_str in
      if 1 <? length parts then
        let base_name := strip (last_part parts) in
        if bool_decide (base_name = "") then None else Some base_name
      else fallback
    else fallback.

(** ** calculate_statistics *)

Record Stats : Type := {
  approved : nat;
  not_approved : nat;
  not_in_time : nat;
  total : nat
}.

Definition zero_stats : Stats :=
  {| approved := 0; not_approved := 0; not_in_time := 0; total := 0 |}.

(** The three masks over the lower-cased status cells. *)
Definition approved_mask (checker_series : list string) : list bool :=
  mask_and (str_contains "approved" checker_series)
           (mask_not (str_contains "not approved" checker_series)).

Definition not_approved_mask (checker_series : list string) : list bool :=
  str_contains "not approved" checker_series.

Definition not_in_time_mask (checker_series : list string) : list bool :=
  str_contains "not in time" checker_series.

Definition calculate_statistics (data : option DataFrame) (checker_col : string)
  : result Stats :=
  match data with
  | None => Ok zero_stats
  | Some data =>
      if len data =? 0 then Ok zero_stats
      else if negb (has_column checker_col data) then Ok zero_stats
      else
        do cells <- getitem data checker_col;
        let checker_series := str_lower cells in
        Ok {| approved := len (select (approved_mask checker_series) data);
              not_approved := len (select (not_approved_mask checker_series) data);
              not_in_time := len (select (not_in_time_mask checker_series) data);
              total := len data |}
  end.

(** ** calculate_base_statistics *)

Definition calculate_base_statistics (data : option DataFrame) (base_name : string)
    (base_name_mapping : gmap string (list string)) (base_col : option string)
    (checker_col : string) : result Stats :=
  match data with
  | None => Ok zero_stats
  | Some data =>
      if len data =? 0 then Ok zero_stats
      else
        match base_col with
        | None => Ok zero_stats
        | Some base_col =>
            if negb (has_column checker_col data) then Ok zero_stats
            else
              let original_values := default [] (base_name_mapping !! base_name) in
              if bool_decide (original_values = []) then Ok zero_stats
              else
                do cells <- getitem data base_col;
                let base_series := str_upper (str_strip cells) in
                let mask := isin original_values base_series in
                let base_data := select mask data in
                if len base_data =? 0 then Ok zero_stats
                else
                  do cells' <- getitem base_data checker_col;
                  let checker_series := str_lower cells' in
                  Ok {| total := len base_data;
                        approved := len (select (approved_mask checker_series) base_data);
                        not_approved :=
                          len (select (not_approved_mask checker_series) base_data);
                        not_in_time :=
                          len (select (not_in_time_mask checker_series) base_data) |}
        end
  end.

(** ** Percentages *)

(** [a / b] on two counts: ZeroDivisionError when [b] is zero.  The quotient
    is kept exact; the rounding of the float is left out. *)
Definition truediv (a b : nat) : result Q :=
  if b =? 0 then Raise ZeroDivisionError
  else Ok (Qmake (Z.of_nat a) (Pos.of_nat b)).

(** [(bucket / total * 100) if total > 0 else 0]. *)
Definition percentage (bucket total : nat) : result Q :=
  if 0 <? total then do q <- truediv bucket total; Ok (Qmult q (inject_Z 100))
  else Ok (inject_Z 0).

(** ** Column resolution *)

(** [col.lower() in ['base', 'bases', 'base name', 'basename']]. *)
Definition is_base_column (col : string) : bool :=
  bool_decide (lower col ∈ ["base"; "bases"; "base name"; "basename"]).

(** [col.lower() in ['checker', 'check']]. *)
Definition is_checker_column (col : string) : bool :=
  bool_decide (lower col ∈ ["checker"; "check"]).

(** The loop that runs when a workbook is loaded: it stops at the first
    column that matches. *)
Fixpoint load_base_col (cols : list string) : option string :=
  match cols with
  | [] => None
  | col :: cols' => if is_base_column col then Some col else load_base_col cols'
  end.

(** The loop of the main flow: one pass over the columns that assigns
    [base_col] and [checker_col] at every match and never stops early. *)
Definition find_columns_step (acc : option string * option string) (col : string)
  : option string * option string :=
  let base_col := if is_base_column col then Some col else acc.1 in
  let checker_col := if is_checker_column col then Some col else acc.2 in
  (base_col, checker_col).

Definition find_columns (cols : list string) : option string * option string :=
  foldl find_columns_step (None, None) cols.

Definition main_base_col (cols : list string) : option string :=
  (find_columns cols).1.

(** [checker_col], with the fallback of the main flow when the loop found
    none: ['Checker' if 'Checker' in df.columns else 'checker']. *)
Definition main_checker_col (cols : list string) : string :=
  match (find_columns cols).2 with
  | Some col => col
  | None => if bool_decide ("Checker" ∈ cols) then "Checker" else "checker"
  end.

(** ** The base-name mapping *)

(** [series.unique()]: one scan that keeps a value the first time it is
    seen. *)
Definition unique_step (seen : list string) (x : string) : list string :=
  if bool_decide (x ∈ seen) then seen else seen ++ [x].

Definition unique (l : list string) : list string := foldl unique_step [] l.

(** [b and b != 'NAN' and b != 'NONE']. *)
Definition not_excluded (b : string) : bool :=
  negb (bool_decide (b = "")) && negb (bool_decide (b = "NAN"))
  && negb (bool_decide (b = "NONE")).

(** One turn of the loop over [unique_base_values]. *)
Definition mapping_step (base_name_mapping : gmap string (list string))
    (base_value : string) : gmap string (list string) :=
  match extract_base_name base_value with
  | Some extracted_name =>
      if bool_decide (extracted_name = "") then base_name_mapping
      else
        let m :=
          match base_name_mapping !! extracted_name with
          | None => <[extracted_name := []]> base_name_mapping
          | Some _ => base_name_mapping
          end in
        <[extracted_name := default [] (m !! extracted_name) ++ [base_value]]> m
  | None => base_name_mapping
  end.

Definition unique_base_values (cells : list string) : list string :=
  filter (λ b, not_excluded b = true) (unique (str_upper (str_strip cells))).

Definition build_mapping (cells : list string) : gmap string (list string) :=
  foldl mapping_step ∅ (unique_base_values cells).

(** ** The session *)

Record Session : Type := {
  df : option DataFrame;
  original_df : option DataFrame;
  base_name_mapping : gmap string (list string);
  selected_bases : list string
}.

(** [list(base_name_mapping.keys())]: the keys in the order in which the
    loop created them. *)
Definition mapping_keys (cells : list string) : list string :=
  unique (omap (λ b, match extract_base_name b with
                     | Some n => if bool_decide (n = "") then None else Some n
                     | None => None
                     end) (unique_base_values cells)).

(** The block "Update base mapping", which runs after a workbook was read
    into the session. *)
Definition update_base_mapping (s : Session) : result Session :=
  match df s with
  | None => Ok s
  | Some data =>
      match load_base_col (columns data) with
      | None => Ok s
      | Some base_col =>
          if bool_decide (base_col = "") then Ok s
          else
            do cells <- getitem data base_col;
            Ok {| df := df s; original_df := original_df s;
                  base_name_mapping := build_mapping cells;
                  selected_bases := mapping_keys cells |}
      end
  end.

(** Reading a CSV file stores the frame and its copy, and nothing else. *)
Definition load_csv (data : DataFrame) (s : Session) : result Session :=
  Ok {| df := Some data; original_df := Some data;
        base_name_mapping := base_name_mapping s;
        selected_bases := selected_bases s |}.

(** Reading a workbook stores the frame and its copy, then updates the
    mapping. *)
Definition load_excel (data : DataFrame) (s : Session) : result Session :=
  update_base_mapping
    {| df := Some data; original_df := Some data;
       base_name_mapping := base_name_mapping s;
       selected_bases := selected_bases s |}.

(** ** Filters *)

(** The regular expression engine, as the filters use it on what the user
    typed: [re.compile(pat, re.IGNORECASE)] either raises or gives the test
    [regex.search(cell) is not None]. *)
Class Regex : Type := {
  re_compile_ignorecase : string → result (string → bool)
}.

(** What the engine does on a pattern without metacharacters: it compiles,
    and finds the pattern where the text holds it, letter case apart. *)
Definition is_meta_char (c : ascii) : bool :=
  bool_decide (String c EmptyString ∈
    ["\"; "."; "^"; "$"; "*"; "+"; "?"; "{"; "}"; "["; "]"; "|"; "("; ")"]).

Definition literal (pat : string) : bool :=
  all_chars (λ c, negb (is_meta_char c)) pat.

Definition contains_nocase (pat s : string) : bool := contains (lower pat) (lower s).

Class RegexLiteral (R : Regex) : Prop := {
  re_compile_literal : ∀ pat : string,
    literal pat = true →
    ∃ m : string → bool,
      re_compile_ignorecase pat = Ok m ∧ ∀ s : string, m s = contains_nocase pat s
}.

(** The engine restricted to patterns without metacharacters; it refuses the
    others. *)
Definition literal_engine : Regex :=
  {| re_compile_ignorecase pat :=
       if literal pat then Ok (contains_nocase pat) else Raise (ReError pat) |}.

Section Filters.
Context {R : Regex}.

(** [series.str.contains(pat, case=False, na=False)]. *)
Definition str_contains_nocase (pat : string) (series : list string)
  : result (list bool) :=
  do m <- re_compile_ignorecase pat; Ok (m <$> series).

Fixpoint rmapM {A B : Type} (f : A → result B) (l : list A) : result (list B) :=
  match l with
  | [] => Ok []
  | x :: l' => do y <- f x; do ys <- rmapM f l'; Ok (y :: ys)
  end.

(** [frame.astype(str).apply(lambda x: x.str.contains(term, case=False,
    na=False)).any(axis=1)]: one mask per column, then their row-wise "or". *)
Definition search_mask (search_term : string) (data : DataFrame) : result (list bool) :=
  do col_masks <-
    rmapM (λ i, str_contains_nocase search_term (cell_at i <$> rows data))
          (seq 0 (length (columns data)));
  Ok (foldl mask_or (replicate (len data) false) col_masks).

Definition search_filter (search_term : string) (data : DataFrame) : result DataFrame :=
  do mask <- search_mask search_term data; Ok (select mask data).

Inductive StatusFilter : Type := ShowAll | Approved | NotApproved | NotInTime.

(** "Apply status filter" of the main flow. *)
Definition apply_status_filter (status_filter : StatusFilter) (checker_col : string)
    (data : DataFrame) : result DataFrame :=
  match status_filter with
  | ShowAll => Ok data
  | _ =>
      if has_column checker_col data then
        do cells <- getitem data checker_col;
        let checker_series := str_lower cells in
        match status_filter with
        | ShowAll => Ok data
        | Approved => Ok (select (approved_mask checker_series) data)
        | NotApproved => Ok (select (not_approved_mask checker_series) data)
        | NotInTime => Ok (select (not_in_time_mask checker_series) data)
        end
      else Ok data
  end.

(** The Combine page once the button is pressed: [None] stands for the
    warning shown when a field or the base column is missing. *)
Definition combine_filter (base1 base2 : string) (base_col : option string)
    (original : DataFrame) : result (option DataFrame) :=
  match base_col with
  | Some base_col =>
      if negb (bool_decide (base1 = "")) && negb (bool_decide (base2 = ""))
         && negb (bool_decide (base_col = ""))
      then
        let base1_upper := strip (upper base1) in
        let base2_upper := strip (upper base2) in
        do cells1 <- getitem original base_col;
        do mask1 <- str_contains_nocase base1_upper cells1;
        do cells2 <- getitem original base_col;
        do mask2 <- str_contains_nocase base2_upper cells2;
        Ok (Some (select (mask_or mask1 mask2) original))
      else Ok None
  | None => Ok None
  end.

(** "Apply Filter" of the Bases page: the rows whose base value is a member
    of one of the selected groups. *)
Definition base_filter (selected : list string)
    (mapping : gmap string (list string)) (base_col : string)
    (original : DataFrame) : result DataFrame :=
  let all_original_values :=
    foldl (λ acc base_name, acc ++ default [] (mapping !! base_name)) [] selected in
  do cells <- getitem original base_col;
  let base_series := str_upper (str_strip cells) in
  Ok (select (isin all_original_values base_series) original).

(** ** One run of the script *)

Inductive Page : Type :=
| DataView (search_term : string)
| Analytics
| SearchPage (search_term : string)
| CombinePage (base1 base2 : string)
| BasesApply (selected : list string)
| BasesReset.

Record Request : Type := {
  status_filter : StatusFilter;
  page : Page
}.

Definition set_df (data : DataFrame) (s : Session) : Session :=
  {| df := Some data; original_df := original_df s;
     base_name_mapping := base_name_mapping s;
     selected_bases := selected_bases s |}.

(** A run answers a request: it leaves the session it ends with and either
    the frame it shows ([None] when it shows none) or the exception that
    stopped it. *)
Definition run (req : Request) (s : Session) : Session * result (option DataFrame) :=
  match df s, original_df s with
  | Some data, Some original =>
      let base_col := main_base_col (columns data) in
      let checker_col := main_checker_col (columns data) in
      match apply_status_filter (status_filter req) checker_col data with
      | Raise e => (s, Raise e)
      | Ok data =>
          match page req with
          | DataView search_term =>
              if bool_decide (search_term = "") then (s, Ok (Some data))
              else (s, do shown <- search_filter search_term data; Ok (Some shown))
          | Analytics => (s, Ok None)
          | SearchPage search_term =>
              if bool_decide (search_term = "") then (s, Ok None)
              else (s, do results <- search_filter search_term original;
                       Ok (Some results))
          | CombinePage base1 base2 =>
              (s, combine_filter base1 base2 base_col original)
          | BasesApply selected =>
              match base_col with
              | Some base_col =>
                  if negb (bool_decide (base_col = ""))
                     && negb (bool_decide (base_name_mapping s = ∅))
                     && negb (bool_decide (selected = []))
                  then
                    match base_filter selected (base_name_mapping s) base_col original with
                    | Ok filtered => (set_df filtered s, Ok (Some filtered))
                    | Raise e => (s, Raise e)
                    end
                  else (s, Ok None)
              | None => (s, Ok None)
              end
          | BasesReset =>
              match base_col with
              | Some base_col =>
                  if negb (bool_decide (base_col = ""))
                     && negb (bool_decide (base_name_mapping s = ∅))
                  then (set_df original s, Ok (Some original))
                  else (s, Ok None)
              | None => (s, Ok None)
              end
          end
      end
  | _, _ => (s, Ok None)
  end.

(** The session after a sequence of runs. *)
Definition run_all (reqs : list Request) (s : Session) : Session :=
  foldl (λ s req, (run req s).1) s reqs.

End Filters.

(** ** The claims of the specification, in its own words *)

(** The normalizer after its placeholder test, as the specification words it:
    trim and upper-case; with the delimiter inside, the last segment of the
    split, trimmed, absent when empty; without it, the whole text, absent
    when empty. *)
Definition normalize_spec (raw : string) : option string :=
  let t := upper (strip raw) in
  if contains "-US-" t then
    let segment := strip (last_part (str_split "-US-" t)) in
    if bool_decide (segment = "") then None else Some segment
  else if bool_decide (t = "") then None else Some t.

(** The three tests of the status classifier on one cell. *)
Definition cell_approved (status : string) : bool :=
  contains "approved" (lower status) && negb (contains "not approved" (lower status)).

Definition cell_not_approved (status : string) : bool :=
  contains "not approved" (lower status).

Definition cell_not_in_time (status : string) : bool :=
  contains "not in time" (lower status).

(** The snapshot of a list of status cells, one cell at a time: each cell
    adds one to the total, and one to every bucket whose test it passes. *)
Fixpoint tally (statuses : list string) : Stats :=
  match statuses with
  | [] => zero_stats
  | status :: rest =>
      let t := tally rest in
      {| approved := (if cell_approved status then 1 else 0) + approved t;
         not_approved := (if cell_not_approved status then 1 else 0) + not_approved t;
         not_in_time := (if cell_not_in_time status then 1 else 0) + not_in_time t;
         total := 1 + total t |}
  end.

(** The rows of a group: those whose trimmed, upper-cased base cell is one
    of the members. *)
Definition group_rows (members : list string) (i : nat) (data : DataFrame)
  : DataFrame :=
  {| columns := columns data;
     rows := filter (λ row, upper (strip (cell_at i row)) ∈ members) (rows data) |}.

(** A frame made of rows of another, under the same columns. *)
Definition subframe (d o : DataFrame) : Prop :=
  columns d = columns o ∧ rows d `sublist_of` rows o.

(** The working frame of a session is a row subset of its canonical one. *)
Definition working_subset (s : Session) : Prop :=
  match df s, original_df s with
  | Some d, Some o => subframe d o
  | _, _ => True
  end.

(** Two sessions hold the same canonical frame and mapping, and working
    frames with the same columns. *)
Definition same_canonical (s1 s2 : Session) : Prop :=
  original_df s1 = original_df s2
  ∧ base_name_mapping s1 = base_name_mapping s2
  ∧ match df s1, df s2 with
    | Some d1, Some d2 => columns d1 = columns d2
    | None, None => True
    | _, _ => False
    end.

(** The pages that read the canonical frame: all but the Data View, which
    shows the working one. *)
Definition reads_canonical (p : Page) : Prop :=
  match p with
  | DataView _ => False
  | _ => True
  end.

(** The raw values of a group: the values that the normalizer names [k], in
    the order of the scan. *)
Definition group_of (k : string) (values : list string) : list string :=
  filter (λ b, extract_base_name b = Some k) values.

(** A frame with a single base value that has no name: a prefix and the
    delimiter with nothing after it. *)
Definition unnamed_frame : DataFrame :=
  {| columns := ["Base"; "Checker"]; rows := [["A-US-"; "Approved"]] |}.

Definition empty_session : Session :=
  {| df := None; original_df := None; base_name_mapping := ∅; selected_bases := [] |}.

(** The sample of the specification: three rows, two of the group LY. *)
Definition sample_frame : DataFrame :=
  {| columns := ["Base"; "Checker"];
     rows := [["123-US-LY"; "Approved"];
              ["456-US-LY"; "Not Approved"];
              ["OTHER"; "Approved"]] |}.

(** A frame whose one base value holds the letter A with no space before. *)
Definition spaced_fragment_frame : DataFrame :=
  {| columns := ["Base"]; rows := [["BA"]] |}.

(** A session as it is after the sample was loaded, and three requests. *)
Definition sample_session : Session :=
  {| df := Some sample_frame; original_df := Some sample_frame;
     base_name_mapping := build_mapping ["123-US-LY"; "456-US-LY"; "OTHER"];
     selected_bases := ["LY"; "OTHER"] |}.

Definition sample_requests : list Request :=
  [ {| status_filter := Approved; page := DataView "ly" |};
    {| status_filter := ShowAll; page := BasesApply ["LY"] |};
    {| status_filter := NotApproved; page := CombinePage "ly" "other" |} ].

(** The rows a frame would keep under "the raw base value holds the fragment,
    letter case apart", for one fragment. *)
Definition fragment_rows (fragment : string) (i : nat) (data : DataFrame)
  : list (list string) :=
  filter (λ row, contains_nocase fragment (cell_at i row) = true) (rows data).

(** The rows kept under "holds [b1] or holds [b2]". *)
Definition either_fragment_rows (b1 b2 : string) (i : nat) (data : DataFrame)
  : list (list string) :=
  filter (λ row, contains_nocase b1 (cell_at i row) = true
                 ∨ contains_nocase b2 (cell_at i row) = true) (rows data).

(** * Facts about the strings *)

Module PyStrFacts.

Lemma str_app_nil_r (s : string) : s +:+ "" = s.
Proof. induction s as [|c s IH]; simpl; congruence. Qed.

Lemma str_app_assoc (a b c : string) : (a +:+ b) +:+ c = a +:+ b +:+ c.
Proof. induction a as [|x a IH]; simpl; congruence. Qed.

Lemma str_length_app (a b : string) :
  String.length (a +:+ b) = String.length a + String.length b.
Proof. induction a as [|x a IH]; simpl; congruence. Qed.

Lemma str_app_eq_nil (a b : string) : a +:+ b = "" → a = "" ∧ b = "".
Proof. destruct a; simpl; [done|discriminate]. Qed.

(** *** Characters *)

Lemma is_space_upper_char (c : ascii) : is_space (upper_char c) = is_space c.
Proof. destruct c as [[] [] [] [] [] [] [] []]; reflexivity. Qed.

Lemma is_lower_upper_char (c : ascii) : is_lower_char (upper_char c) = false.
Proof. destruct c as [[] [] [] [] [] [] [] []]; reflexivity. Qed.

Lemma upper_char_not_lower (c : ascii) : is_lower_char c = false → upper_char c = c.
Proof. unfold upper_char. by intros ->. Qed.

Lemma is_meta_upper_char (c : ascii) : is_meta_char (upper_char c) = is_meta_char c.
Proof. destruct c as [[] [] [] [] [] [] [] []]; reflexivity. Qed.

(** *** map_chars, upper *)

Lemma map_chars_app (f : ascii → ascii) (a b : string) :
  map_chars f (a +:+ b) = map_chars f a +:+ map_chars f b.
Proof. induction a as [|x a IH]; simpl; congruence. Qed.

Lemma all_chars_app (P : ascii → bool) (a b : string) :
  all_chars P (a +:+ b) = all_chars P a && all_chars P b.
Proof.
  induction a as [|x a IH]; simpl; [done|]. by rewrite IH, andb_assoc.
Qed.

Lemma upper_no_lower (s : string) :
  all_chars (λ c, negb (is_lower_char c)) (upper s) = true.
Proof.
  unfold upper. induction s as [|c s IH]; simpl; [done|].
  by rewrite is_lower_upper_char, IH.
Qed.

Lemma no_lower_upper (s : string) :
  all_chars (λ c, negb (is_lower_char c)) s = true → upper s = s.
Proof.
  unfold upper. induction s as [|c s IH]; simpl; [done|].
  intros [Hc Hs]%andb_true_iff. apply negb_true_iff in Hc.
  by rewrite (upper_char_not_lower _ Hc), IH.
Qed.

Lemma upper_idemp (s : string) : upper (upper s) = upper s.
Proof. apply no_lower_upper, upper_no_lower. Qed.

(** *** startswith, contains *)

Lemma startswith_spec (p s : string) :
  startswith p s = true ↔ ∃ r : string, s = p +:+ r.
Proof.
  revert s; induction p as [|a p IH]; intros s; simpl.
  - split; [intros _; by exists s|done].
  - destruct s as [|b s]; [split; [done|intros [r Hr]; discriminate]|].
    rewrite andb_true_iff, bool_decide_eq_true, IH. split.
    + intros [-> [r ->]]. by exists r.
    + intros [r [= -> ->]]. split; [done|by exists r].
Qed.

Lemma startswith_app (p r : string) : startswith p (p +:+ r) = true.
Proof. apply startswith_spec. by exists r. Qed.

Lemma contains_startswith (p s : string) :
  startswith p s = true → contains p s = true.
Proof. destruct s; simpl; by intros ->. Qed.

Lemma contains_spec (p s : string) : contains p s = true ↔ substring_of p s.
Proof.
  split.
  - induction s as [|c s IH]; simpl.
    + rewrite orb_false_r. intros [r Hr]%startswith_spec.
      exists "", r. done.
    + intros [H|H]%orb_true_iff.
      * apply startswith_spec in H as [r Hr]. by exists "", r.
      * destruct (IH H) as (a & b & ->). by exists (String c a), b.
  - intros (a & b & ->). induction a as [|c a IH]; simpl.
    + apply contains_startswith, startswith_app.
    + rewrite IH. apply orb_true_r.
Qed.

Lemma contains_app_l (p a s : string) : contains p s = true → contains p (a +:+ s) = true.
Proof.
  rewrite !contains_spec. intros (x & y & ->).
  exists (a +:+ x), y. by rewrite str_app_assoc.
Qed.

Lemma contains_app_r (p s b : string) : contains p s = true → contains p (s +:+ b) = true.
Proof.
  rewrite !contains_spec. intros (x & y & ->).
  exists x, (y +:+ b). by rewrite !str_app_assoc.
Qed.

Lemma all_chars_map (P : ascii → bool) (f : ascii → ascii) (s : string) :
  all_chars P (map_chars f s) = all_chars (λ c, P (f c)) s.
Proof. induction s as [|c s IH]; simpl; congruence. Qed.

Lemma all_chars_ext (P Q : ascii → bool) (s : string) :
  (∀ c, P c = Q c) → all_chars P s = all_chars Q s.
Proof. intros H. induction s as [|c s IH]; simpl; [done|]. by rewrite H, IH. Qed.

(** *** strip *)

Lemma lstrip_decomp (s : string) :
  ∃ l : string, s = l +:+ lstrip s ∧ all_chars is_space l = true.
Proof.
  induction s as [|c s (l & Hl & Hsp)]; simpl.
  - by exists "".
  - destruct (is_space c) eqn:Hc.
    + exists (String c l). simpl. rewrite Hc, Hsp. by rewrite <- Hl.
    + by exists "".
Qed.

Lemma rstrip_decomp (s : string) :
  ∃ r : string, s = rstrip s +:+ r ∧ all_chars is_space r = true.
Proof.
  induction s as [|c s (r & Hr & Hsp)]; simpl.
  - by exists "".
  - destruct (rstrip s) as [|d t] eqn:E.
    + simpl in Hr. subst r. destruct (is_space c) eqn:Hc.
      * exists (String c s). simpl. by rewrite Hc, Hsp.
      * by exists s.
    + exists r. simpl. split; [|done]. f_equal. exact Hr.
Qed.

Lemma strip_decomp (s : string) :
  ∃ l r : string, s = l +:+ strip s +:+ r
    ∧ all_chars is_space l = true ∧ all_chars is_space r = true.
Proof.
  destruct (lstrip_decomp s) as (l & Hl & Hsl).
  destruct (rstrip_decomp (lstrip s)) as (r & Hr & Hsr).
  exists l, r. unfold strip. by rewrite <- Hr.
Qed.

Lemma contains_strip (p s : string) :
  contains p (strip s) = true → contains p s = true.
Proof.
  intros H. destruct (strip_decomp s) as (l & r & Hs & _).
  rewrite Hs. by apply contains_app_l, contains_app_r.
Qed.

Lemma all_chars_strip (P : ascii → bool) (s : string) :
  all_chars P s = true → all_chars P (strip s) = true.
Proof.
  destruct (strip_decomp s) as (l & r & Hs & _). rewrite Hs at 1.
  rewrite !all_chars_app, !andb_true_iff. tauto.
Qed.

Lemma lstrip_id (s : string) :
  from_option is_space false (first_char s) = false → lstrip s = s.
Proof. destruct s; simpl; [done|by intros ->]. Qed.

Lemma rstrip_id (s : string) :
  from_option is_space false (last_char s) = false → rstrip s = s.
Proof.
  induction s as [|c s IH]; [done|].
  destruct s as [|d t].
  - simpl. by intros ->.
  - intros H. change (last_char (String c (String d t))) with (last_char (String d t)) in H.
    specialize (IH H). change (rstrip (String c (String d t)))
      with (match rstrip (String d t) with
            | EmptyString => if is_space c then EmptyString else String c EmptyString
            | r => String c r
            end).
    by rewrite IH.
Qed.

Lemma first_char_lstrip (s : string) :
  from_option is_space false (first_char (lstrip s)) = false.
Proof.
  induction s as [|c s IH]; simpl; [done|].
  destruct (is_space c) eqn:Hc; [done|]. simpl. exact Hc.
Qed.

Lemma last_char_rstrip (s : string) :
  from_option is_space false (last_char (rstrip s)) = false.
Proof.
  induction s as [|c s IH]; simpl; [done|].
  destruct (rstrip s) as [|d t] eqn:E.
  - destruct (is_space c) eqn:Hc; simpl; done.
  - exact IH.
Qed.

Lemma first_char_rstrip (s : string) :
  from_option is_space false (first_char s) = false →
  from_option is_space false (first_char (rstrip s)) = false.
Proof.
  destruct s as [|c s]; simpl; [done|]. intros Hc.
  destruct (rstrip s); [rewrite Hc|]; done.
Qed.

Lemma has_outer_space_strip (s : string) : has_outer_space (strip s) = false.
Proof.
  unfold has_outer_space, strip.
  by rewrite first_char_rstrip, last_char_rstrip by apply first_char_lstrip.
Qed.

Lemma no_outer_space_strip (s : string) : has_outer_space s = false → strip s = s.
Proof.
  unfold has_outer_space, strip. intros [H1 H2]%orb_false_iff.
  by rewrite (lstrip_id _ H1), (rstrip_id _ H2).
Qed.

Lemma strip_idemp (s : string) : strip (strip s) = strip s.
Proof. apply no_outer_space_strip, has_outer_space_strip. Qed.

Lemma first_char_map (f : ascii → ascii) (s : string) :
  first_char (map_chars f s) = f <$> first_char s.
Proof. by destruct s. Qed.

Lemma last_char_map (f : ascii → ascii) (s : string) :
  last_char (map_chars f s) = f <$> last_char s.
Proof.
  induction s as [|c s IH]; [done|].
  destruct s as [|d t]; [done|]. exact IH.
Qed.

Lemma has_outer_space_upper (s : string) :
  has_outer_space (upper s) = has_outer_space s.
Proof.
  unfold has_outer_space, upper. rewrite first_char_map, last_char_map.
  destruct (first_char s), (last_char s); simpl;
    by rewrite ?is_space_upper_char.
Qed.

Lemma lower_upper_char (c : ascii) : lower_char (upper_char c) = lower_char c.
Proof. destruct c as [[] [] [] [] [] [] [] []]; reflexivity. Qed.

Lemma lower_upper (s : string) : lower (upper s) = lower s.
Proof.
  unfold lower, upper. induction s as [|c s IH]; simpl; [done|].
  by rewrite lower_upper_char, IH.
Qed.

Lemma lstrip_map (f : ascii → ascii) (s : string) :
  (∀ c, is_space (f c) = is_space c) →
  lstrip (map_chars f s) = map_chars f (lstrip s).
Proof.
  intros Hf. induction s as [|c s IH]; simpl; [done|].
  rewrite Hf. by destruct (is_space c).
Qed.

Lemma rstrip_map (f : ascii → ascii) (s : string) :
  (∀ c, is_space (f c) = is_space c) →
  rstrip (map_chars f s) = map_chars f (rstrip s).
Proof.
  intros Hf. induction s as [|c s IH]; simpl; [done|].
  rewrite IH. destruct (rstrip s); simpl; [|done].
  rewrite Hf. by destruct (is_space c).
Qed.

Lemma strip_upper (s : string) : strip (upper s) = upper (strip s).
Proof.
  unfold strip, upper.
  by rewrite lstrip_map, rstrip_map by apply is_space_upper_char.
Qed.

Lemma literal_strip_upper (pat : string) :
  literal pat = true → literal (strip (upper pat)) = true.
Proof.
  intros H. apply all_chars_strip. unfold upper. rewrite all_chars_map.
  erewrite all_chars_ext; [exact H|]. intros c. simpl.
  by rewrite is_meta_upper_char.
Qed.

(** *** partition, split *)

Lemma string_length_ind (P : string → Prop) :
  (∀ s, (∀ t, String.length t < String.length s → P t) → P s) → ∀ s, P s.
Proof.
  intros H s. remember (String.length s) as n eqn:E. revert s E.
  induction n as [n IH] using lt_wf_ind. intros s ->.
  apply H. intros t Ht. by apply (IH _ Ht).
Qed.

Lemma str_drop_app (p r : string) : str_drop (String.length p) (p +:+ r) = r.
Proof. induction p as [|c p IH]; simpl; [by destruct r|done]. Qed.

Lemma str_partition_spec (sep s a b : string) :
  str_partition sep s = Some (a, b) → s = a +:+ sep +:+ b.
Proof.
  revert a b. induction s as [|c s IH]; intros a b.
  - simpl. destruct (startswith sep "") eqn:E; [|done].
    intros [= <- <-]. apply startswith_spec in E as [r Hr].
    symmetry in Hr. apply str_app_eq_nil in Hr as [-> ->]. done.
  - change (str_partition sep (String c s)) with
      (if startswith sep (String c s)
       then Some (EmptyString, str_drop (String.length sep) (String c s))
       else match str_partition sep s with
            | Some (a, b) => Some (String c a, b)
            | None => None
            end).
    destruct (startswith sep (String c s)) eqn:E.
    + intros [= <- <-]. apply startswith_spec in E as [r Hr].
      rewrite Hr. by rewrite str_drop_app.
    + destruct (str_partition sep s) as [[a' b']|]; [|done].
      intros [= <- <-]. simpl. f_equal. by apply IH.
Qed.

Lemma str_partition_None (sep s : string) :
  str_partition sep s = None ↔ contains sep s = false.
Proof.
  induction s as [|c s IH].
  - simpl. destruct (startswith sep ""); simpl; split; done.
  - change (str_partition sep (String c s)) with
      (if startswith sep (String c s)
       then Some (EmptyString, str_drop (String.length sep) (String c s))
       else match str_partition sep s with
            | Some (a, b) => Some (String c a, b)
            | None => None
            end).
    change (contains sep (String c s)) with
      (startswith sep (String c s) || contains sep s).
    destruct (startswith sep (String c s)); simpl; [split; done|].
    rewrite <- IH. destruct (str_partition sep s) as [[a b]|]; split; done.
Qed.

Lemma str_split_step (c : ascii) (sep s : string) :
  str_split (String c sep) s =
    match str_partition (String c sep) s with
    | Some (a, b) => a :: str_split (String c sep) b
    | None => [s]
    end.
Proof.
  rewrite str_split_equation_2.
  destruct (inspect (str_partition (String c sep) s)) as [[[a b]|] H];
    simpl; rewrite H; reflexivity.
Qed.

Lemma str_split_nonempty (sep s : string) : str_split sep s ≠ [].
Proof.
  destruct sep as [|c sep]; [by rewrite str_split_equation_1|].
  rewrite str_split_step. by destruct (str_partition _ _) as [[a b]|].
Qed.

Lemma last_part_cons (a : string) (l : list string) :
  l ≠ [] → last_part (a :: l) = last_part l.
Proof.
  unfold last_part. destruct l as [|b l]; [done|]. by rewrite last_cons_cons.
Qed.

Lemma str_split_length (c : ascii) (sep s : string) :
  contains (String c sep) s = true → 1 < length (str_split (String c sep) s).
Proof.
  intros H. rewrite str_split_step.
  destruct (str_partition (String c sep) s) as [[a b]|] eqn:E.
  - pose proof (str_split_nonempty (String c sep) b) as Hne.
    destruct (str_split (String c sep) b); [done|simpl; lia].
  - apply str_partition_None in E. congruence.
Qed.

Lemma str_split_single (c : ascii) (sep s : string) :
  contains (String c sep) s = false → str_split (String c sep) s = [s].
Proof.
  intros H. rewrite str_split_step.
  apply str_partition_None in H. by rewrite H.
Qed.

Lemma last_part_no_sep (c : ascii) (sep s : string) :
  contains (String c sep) (last_part (str_split (String c sep) s)) = false.
Proof.
  induction s as [s IH] using string_length_ind.
  rewrite str_split_step.
  destruct (str_partition (String c sep) s) as [[a b]|] eqn:E.
  - rewrite last_part_cons by apply str_split_nonempty.
    apply IH. by eapply str_partition_shorter.
  - by apply str_partition_None in E.
Qed.

Lemma last_part_suffix (sep s : string) :
  ∃ pre : string, s = pre +:+ last_part (str_split sep s).
Proof.
  destruct sep as [|c sep]; [by exists ""; rewrite str_split_equation_1|].
  induction s as [s IH] using string_length_ind.
  rewrite str_split_step.
  destruct (str_partition (String c sep) s) as [[a b]|] eqn:E.
  - rewrite last_part_cons by apply str_split_nonempty.
    destruct (IH b) as [pre Hpre]; [by eapply str_partition_shorter|].
    apply str_partition_spec in E.
    exists (a +:+ String c sep +:+ pre).
    rewrite E at 1. rewrite Hpre at 1. by rewrite !str_app_assoc.
  - by exists "".
Qed.

Lemma last_part_after_sep (c : ascii) (sep s : string) :
  contains (String c sep) s = true →
  ∃ pre : string, s = pre +:+ String c sep +:+ last_part (str_split (String c sep) s).
Proof.
  induction s as [s IH] using string_length_ind. intros Hs.
  rewrite str_split_step.
  destruct (str_partition (String c sep) s) as [[a b]|] eqn:E.
  - pose proof (str_partition_spec _ _ _ _ E) as Hab.
    rewrite last_part_cons by apply str_split_nonempty.
    destruct (contains (String c sep) b) eqn:Hb.
    + destruct (IH b) as [pre Hpre]; [by eapply str_partition_shorter|done|].
      exists (a +:+ String c sep +:+ pre).
      rewrite Hab at 1. rewrite Hpre at 1. by rewrite !str_app_assoc.
    + rewrite (str_split_single _ _ _ Hb). by exists a.
  - apply str_partition_None in E. congruence.
Qed.

End PyStrFacts.

Import PyStrFacts.

(** * extract_base_name *)

Section ExtractBaseName.

Lemma extract_base_name_guard (raw : string) :
  raw = "" ∨ raw = "NAN" ∨ raw = "NONE" → extract_base_name raw = None.
Proof. intros [->|[->| ->]]; reflexivity. Qed.

Lemma extract_base_name_unguarded (raw : string) :
  raw ≠ "" → raw ≠ "NAN" → raw ≠ "NONE" →
  extract_base_name raw = normalize_spec raw.
Proof.
  intros H1 H2 H3. unfold extract_base_name, normalize_spec.
  rewrite !bool_decide_eq_false_2 by done. simpl.
  destruct (contains "-US-" (upper (strip raw))) eqn:Hc; [|done].
  apply str_split_length in Hc. apply Nat.ltb_lt in Hc. by rewrite Hc.
Qed.

Lemma normalize_spec_normal (raw out : string) :
  normalize_spec raw = Some out →
  out ≠ "" ∧ has_outer_space out = false
  ∧ all_chars (λ c, negb (is_lower_char c)) out = true
  ∧ contains "-US-" out = false.
Proof.
  unfold normalize_spec.
  destruct (contains "-US-" (upper (strip raw))) eqn:Hc.
  - case_bool_decide as Hne; [done|]. intros [= <-].
    split_and!; [done|apply has_outer_space_strip| |].
    + apply all_chars_strip.
      destruct (last_part_suffix "-US-" (upper (strip raw))) as [pre Hpre].
      pose proof (upper_no_lower (strip raw)) as Hup.
      rewrite Hpre, all_chars_app in Hup. by apply andb_true_iff in Hup as [_ ?].
    + destruct (contains "-US-" (strip _)) eqn:Hs; [|done].
      apply contains_strip in Hs. by rewrite last_part_no_sep in Hs.
  - case_bool_decide as Hne; [done|]. intros [= <-].
    split_and!; [done| |apply upper_no_lower|done].
    rewrite has_outer_space_upper. apply has_outer_space_strip.
Qed.

End ExtractBaseName.

Example split_ex1 : str_split "-US-" "20221-US-LY" = ["20221"; "LY"].
Proof. reflexivity. Qed.

Example split_ex2 : str_split "-US-" "A-US-US-B-US-" = ["A"; "US-B"; ""].
Proof. vm_compute. reflexivity. Qed.

Example strip_ex : strip "  us-US-zz  " = "us-US-zz".
Proof. reflexivity. Qed.

Example upper_ex : upper "us-US-zz9" = "US-US-ZZ9".
Proof. reflexivity. Qed.

(** * The normalizer: claims C2, C6 and C10 *)



(** C6, as the code has it.  The normalizer answers absent on the empty text
    and on the texts NAN and NONE exactly as spelled, the forms the caller's
    trimming and upper-casing produce.  The test comes before the
    normalizer's own trimming and upper-casing, so any other spelling of a
    placeholder is named like a base: it comes out as NAN or NONE. *)
Theorem extract_base_name_placeholders :
  (∀ raw : string, raw = "" ∨ raw = "NAN" ∨ raw = "NONE" →
     extract_base_name raw = None)
  ∧ (∀ raw : string, raw ≠ "" → raw ≠ "NAN" → raw ≠ "NONE" →
       upper (strip raw) = "NAN" ∨ upper (strip raw) = "NONE" →
       extract_base_name raw = Some (upper (strip raw))).
Proof.
  split; [exact extract_base_name_guard|].
  intros raw H1 H2 H3 Hn. rewrite extract_base_name_unguarded by done.
  unfold normalize_spec. destruct Hn as [-> | ->]; reflexivity.
Qed.

Lemma extract_base_name_placeholders_witness :
  extract_base_name "NONE" = None
  ∧ extract_base_name " none" = Some "NONE".
Proof.
  split.
  - apply (proj1 extract_base_name_placeholders). auto.
  - apply (proj2 extract_base_name_placeholders " none"); [done|done|done|].
    right. reflexivity.
Defined.

(** C6 as stated fails: the lower-case placeholder is not absent. *)
Lemma extract_base_name_lowercase_nan :
  extract_base_name "nan" = Some "NAN" ∧ extract_base_name "nan" ≠ None.
Proof. split; [reflexivity|discriminate]. Qed.



(** * Facts about frames and masks *)

Section FrameFacts.

Lemma has_column_index (col : string) (data : DataFrame) :
  has_column col data = true ↔ ∃ i : nat, col_index data col = Some i.
Proof.
  unfold has_column, col_index. rewrite bool_decide_eq_true. split.
  - intros Hin.
    destruct (list_find_elem_of (λ c, c = col) (columns data) col Hin eq_refl)
      as [[i c] Hf].
    exists i. by rewrite Hf.
  - intros [i Hi]. destruct (list_find _ _) as [[j c]|] eqn:Hf; [|done].
    apply list_find_Some in Hf as (Hl & -> & _).
    by eapply list_elem_of_lookup_2.
Qed.

Lemma getitem_index (data : DataFrame) (col : string) (i : nat) :
  col_index data col = Some i → getitem data col = Ok (cell_at i <$> rows data).
Proof. unfold getitem. by intros ->. Qed.

Lemma select_fmap {A : Type} (g : A → bool) (l : list A) :
  (filter (λ rm : A * bool, rm.2 = true) (zip l (g <$> l))).*1
  = filter (λ r, g r = true) l.
Proof.
  induction l as [|x l IH]; [done|].
  cbn [zip zip_with fmap list_fmap].
  rewrite !filter_cons. cbn [snd].
  destruct (g x) eqn:E; repeat case_decide; try done.
  rewrite fmap_cons; cbn [fst]; f_equal; exact IH.
Qed.

Lemma select_rows (g : list string → bool) (data : DataFrame) :
  rows (select (g <$> rows data) data) = filter (λ r, g r = true) (rows data).
Proof. apply select_fmap. Qed.

Lemma select_columns (mask : list bool) (data : DataFrame) :
  columns (select mask data) = columns data.
Proof. done. Qed.

Lemma mask_and_fmap {A : Type} (f g : A → bool) (l : list A) :
  mask_and (f <$> l) (g <$> l) = (λ x, f x && g x) <$> l.
Proof.
  unfold mask_and. by rewrite zip_with_fmap_l, zip_with_fmap_r, zip_with_diag.
Qed.

Lemma mask_or_fmap {A : Type} (f g : A → bool) (l : list A) :
  mask_or (f <$> l) (g <$> l) = (λ x, f x || g x) <$> l.
Proof.
  unfold mask_or. by rewrite zip_with_fmap_l, zip_with_fmap_r, zip_with_diag.
Qed.

Lemma approved_mask_rows {A : Type} (f : A → string) (l : list A) :
  approved_mask (str_lower (f <$> l)) = (λ r, cell_approved (f r)) <$> l.
Proof.
  unfold approved_mask, mask_not, str_contains, str_lower.
  rewrite <- !list_fmap_compose. by rewrite mask_and_fmap.
Qed.

Lemma not_approved_mask_rows {A : Type} (f : A → string) (l : list A) :
  not_approved_mask (str_lower (f <$> l)) = (λ r, cell_not_approved (f r)) <$> l.
Proof.
  unfold not_approved_mask, str_contains, str_lower.
  by rewrite <- !list_fmap_compose.
Qed.

Lemma not_in_time_mask_rows {A : Type} (f : A → string) (l : list A) :
  not_in_time_mask (str_lower (f <$> l)) = (λ r, cell_not_in_time (f r)) <$> l.
Proof.
  unfold not_in_time_mask, str_contains, str_lower.
  by rewrite <- !list_fmap_compose.
Qed.

Lemma isin_rows {A : Type} (values : list string) (f : A → string) (l : list A) :
  isin values (str_upper (str_strip (f <$> l)))
  = (λ r, bool_decide (upper (strip (f r)) ∈ values)) <$> l.
Proof. unfold isin, str_upper, str_strip. by rewrite <- !list_fmap_compose. Qed.

Lemma tally_rows {A : Type} (f : A → string) (l : list A) :
  tally (f <$> l) =
    {| approved := length (filter (λ r, cell_approved (f r) = true) l);
       not_approved := length (filter (λ r, cell_not_approved (f r) = true) l);
       not_in_time := length (filter (λ r, cell_not_in_time (f r) = true) l);
       total := length l |}.
Proof.
  induction l as [|x l IH]; [done|].
  rewrite fmap_cons. cbn [tally]. rewrite IH. cbn [approved not_approved not_in_time total].
  rewrite !filter_cons.
  destruct (cell_approved (f x)), (cell_not_approved (f x)),
    (cell_not_in_time (f x)); repeat case_decide; try done.
Qed.

(** What [calculate_statistics] computes on a frame that has the column. *)
Lemma calculate_statistics_tally (data : DataFrame) (col : string) (i : nat) :
  col_index data col = Some i →
  calculate_statistics (Some data) col = Ok (tally (cell_at i <$> rows data)).
Proof.
  intros Hi. unfold calculate_statistics.
  destruct (len data =? 0) eqn:Hlen.
  - apply Nat.eqb_eq in Hlen. unfold len in Hlen.
    by destruct (rows data).
  - assert (has_column col data = true) as -> by (apply has_column_index; eauto).
    simpl. rewrite (getitem_index _ _ _ Hi). simpl.
    rewrite approved_mask_rows, not_approved_mask_rows, not_in_time_mask_rows.
    unfold len. rewrite !select_rows. by rewrite tally_rows.
Qed.

Lemma calculate_statistics_no_column (data : DataFrame) (col : string) :
  has_column col data = false → calculate_statistics (Some data) col = Ok zero_stats.
Proof. intros H. unfold calculate_statistics. rewrite H. by destruct (len data =? 0). Qed.

Lemma select_isin_group (members : list string) (i : nat) (data : DataFrame) :
  select (isin members (str_upper (str_strip (cell_at i <$> rows data)))) data
  = group_rows members i data.
Proof.
  rewrite isin_rows. unfold group_rows, select. f_equal.
  rewrite (select_fmap (λ r, bool_decide (upper (strip (cell_at i r)) ∈ members))).
  apply list_filter_iff. intros r. apply bool_decide_eq_true.
Qed.

Lemma calculate_base_statistics_members (data : DataFrame) (name : string)
    (mapping : gmap string (list string)) (bc cc : string) (i : nat) :
  col_index data bc = Some i →
  calculate_base_statistics (Some data) name mapping (Some bc) cc =
    if bool_decide (default [] (mapping !! name) = []) then Ok zero_stats
    else calculate_statistics (Some (group_rows (default [] (mapping !! name)) i data)) cc.
Proof.
  intros Hi. unfold calculate_base_statistics.
  set (members := default [] (mapping !! name)).
  destruct (len data =? 0) eqn:Hlen.
  { apply Nat.eqb_eq in Hlen. unfold len in Hlen.
    case_bool_decide; [done|]. unfold calculate_statistics, group_rows, len. simpl.
    by destruct (rows data). }
  destruct (has_column cc data) eqn:Hcc; simpl.
  - case_bool_decide; [done|].
    rewrite (getitem_index _ _ _ Hi). simpl.
    rewrite select_isin_group.
    unfold calculate_statistics.
    assert (has_column cc (group_rows members i data) = true) as -> by exact Hcc.
    simpl. destruct (len (group_rows members i data) =? 0); [done|].
    by destruct (getitem (group_rows members i data) cc).
  - case_bool_decide; [done|].
    symmetry. by apply calculate_statistics_no_column.
Qed.

Lemma calculate_base_statistics_no_members (data : option DataFrame) (name : string)
    (mapping : gmap string (list string)) (bc : option string) (cc : string) :
  default [] (mapping !! name) = [] →
  calculate_base_statistics data name mapping bc cc = Ok zero_stats.
Proof.
  intros Hm. unfold calculate_base_statistics. rewrite Hm.
  destruct data as [data|]; [|done].
  destruct (len data =? 0); [done|]. destruct bc as [bc|]; [|done].
  by destruct (negb (has_column cc data)).
Qed.

Lemma calculate_base_statistics_no_base_col (data : option DataFrame) (name : string)
    (mapping : gmap string (list string)) (cc : string) :
  calculate_base_statistics data name mapping None cc = Ok zero_stats.
Proof.
  unfold calculate_base_statistics. destruct data as [data|]; [|done].
  by destruct (len data =? 0).
Qed.

Lemma calculate_statistics_total (data : option DataFrame) (cc : string) :
  ∃ st : Stats, calculate_statistics data cc = Ok st.
Proof.
  destruct data as [data|]; [|by eexists].
  destruct (has_column cc data) eqn:Hcc.
  - apply has_column_index in Hcc as [i Hi].
    rewrite (calculate_statistics_tally _ _ _ Hi). by eexists.
  - rewrite calculate_statistics_no_column by done. by eexists.
Qed.

End FrameFacts.

(** * The classifier and the aggregator: claims C1, C4 and C7 *)

(** C1.  The three tests of a status cell read its lower-cased text:
    approved when it holds "approved" and does not hold "not approved";
    not approved when it holds "not approved"; not in time when it holds
    "not in time", whatever the other two say.  [calculate_statistics] counts
    every row in the total and in each bucket whose test its cell passes.
    So "Approved but not in time" is approved and not in time at once,
    "Not Approved" is not approved only, and a cell passing no test adds to
    the total alone. *)
Theorem status_tests_independent :
  (∀ status : string,
     (cell_approved status = true ↔
        substring_of "approved" (lower status)
        ∧ ¬ substring_of "not approved" (lower status))
     ∧ (cell_not_approved status = true ↔ substring_of "not approved" (lower status))
     ∧ (cell_not_in_time status = true ↔ substring_of "not in time" (lower status)))
  ∧ (∀ (data : DataFrame) (checker_col : string) (i : nat),
       col_index data checker_col = Some i →
       calculate_statistics (Some data) checker_col
       = Ok (tally (cell_at i <$> rows data)))
  ∧ (cell_approved "Approved but not in time" = true
     ∧ cell_not_approved "Approved but not in time" = false
     ∧ cell_not_in_time "Approved but not in time" = true)
  ∧ (cell_approved "Not Approved" = false ∧ cell_not_approved "Not Approved" = true)
  ∧ (∀ (status : string) (rest : list string),
       cell_approved status = false → cell_not_approved status = false →
       cell_not_in_time status = false →
       tally (status :: rest) =
         {| approved := approved (tally rest);
            not_approved := not_approved (tally rest);
            not_in_time := not_in_time (tally rest);
            total := S (total (tally rest)) |}).
Proof.
  split_and!; try reflexivity.
  - intros status. unfold cell_approved, cell_not_approved, cell_not_in_time.
    rewrite andb_true_iff, negb_true_iff, <- not_true_iff_false, !contains_spec.
    done.
  - exact calculate_statistics_tally.
  - intros status rest H1 H2 H3. simpl. by rewrite H1, H2, H3.
Qed.

Lemma status_tests_independent_witness :
  col_index sample_frame "Checker" = Some 1
  ∧ calculate_statistics (Some sample_frame) "Checker"
    = Ok (tally ["Approved"; "Not Approved"; "Approved"]).
Proof.
  split; [reflexivity|].
  apply (proj1 (proj2 status_tests_independent) sample_frame "Checker" 1).
  reflexivity.
Defined.



(** C7.  [calculate_statistics] returns the zero snapshot when there is no
    frame, when the frame has no row, and when the status column is not one
    of its columns, and it never raises.  The percentage of a bucket is
    guarded: with a total of zero it is zero, with any total it is a number,
    where the bare division by a zero total would raise. *)
Theorem statistics_never_divide_by_zero :
  (∀ checker_col : string, calculate_statistics None checker_col = Ok zero_stats)
  ∧ (∀ (data : DataFrame) (checker_col : string),
       rows data = [] ∨ checker_col ∉ columns data →
       calculate_statistics (Some data) checker_col = Ok zero_stats)
  ∧ (∀ (data : option DataFrame) (checker_col : string),
       ∃ st : Stats, calculate_statistics data checker_col = Ok st)
  ∧ (∀ bucket : nat, percentage bucket 0 = Ok (inject_Z 0))
  ∧ (∀ bucket total : nat, ∃ q : Q, percentage bucket total = Ok q)
  ∧ (∀ bucket total : nat, 0 < total →
       percentage bucket total
       = Ok (Qmult (Qmake (Z.of_nat bucket) (Pos.of_nat total)) (inject_Z 100)))
  ∧ (∀ bucket : nat, truediv bucket 0 = Raise ZeroDivisionError).
Proof.
  split_and!; try done.
  - intros data cc [Hr|Hc].
    + unfold calculate_statistics, len. by rewrite Hr.
    + apply calculate_statistics_no_column. by apply bool_decide_eq_false.
  - exact calculate_statistics_total.
  - intros bucket total. unfold percentage, truediv.
    destruct total as [|n]; simpl; by eexists.
  - intros bucket total Ht. unfold percentage, truediv.
    destruct total as [|n]; [lia|done].
Qed.

Lemma statistics_never_divide_by_zero_witness :
  calculate_statistics (Some {| columns := ["Base"]; rows := [["X"]] |}) "Checker"
  = Ok zero_stats
  ∧ percentage 1 4 = Ok (Qmult (Qmake 1 4) (inject_Z 100)).
Proof.
  split.
  - apply (proj1 (proj2 statistics_never_divide_by_zero)). right.
    simpl. by intros ?%list_elem_of_singleton.
  - apply (proj1 (proj2 (proj2 (proj2 (proj2 (proj2 statistics_never_divide_by_zero)))))).
    lia.
Defined.

(** * Facts about the base-name mapping and the column loops *)

Section MappingFacts.

Lemma unique_fold_elem_of (seen l : list string) (x : string) :
  x ∈ foldl unique_step seen l ↔ x ∈ seen ∨ x ∈ l.
Proof.
  revert seen. induction l as [|y l IH]; intros seen; simpl.
  - rewrite elem_of_nil. tauto.
  - rewrite IH, elem_of_cons. unfold unique_step.
    case_bool_decide as Hy.
    + split; [tauto|]. intros [?|[->|?]]; auto.
    + rewrite elem_of_app, list_elem_of_singleton. tauto.
Qed.

Lemma unique_fold_NoDup (seen l : list string) :
  NoDup seen → NoDup (foldl unique_step seen l).
Proof.
  revert seen. induction l as [|y l IH]; intros seen Hnd; simpl; [done|].
  apply IH. unfold unique_step. case_bool_decide as Hy; [done|].
  apply NoDup_app. split_and!; [done| |apply NoDup_singleton].
  intros x Hx ->%list_elem_of_singleton. done.
Qed.

Lemma elem_of_unique (l : list string) (x : string) : x ∈ unique l ↔ x ∈ l.
Proof. unfold unique. rewrite unique_fold_elem_of, elem_of_nil. tauto. Qed.

Lemma NoDup_unique (l : list string) : NoDup (unique l).
Proof. apply unique_fold_NoDup, NoDup_nil_2. Qed.

(** The scan keeps a value when it meets it for the first time. *)
Lemma unique_snoc (l : list string) (x : string) :
  unique (l ++ [x]) = if bool_decide (x ∈ l) then unique l else unique l ++ [x].
Proof.
  unfold unique. rewrite foldl_snoc. fold (unique l). unfold unique_step.
  by rewrite (bool_decide_ext _ _ (elem_of_unique l x)).
Qed.

Lemma not_excluded_spec (b : string) :
  not_excluded b = true ↔ b ≠ "" ∧ b ≠ "NAN" ∧ b ≠ "NONE".
Proof.
  unfold not_excluded.
  rewrite !andb_true_iff, !negb_true_iff, !bool_decide_eq_false. tauto.
Qed.

Lemma elem_of_unique_base_values (cells : list string) (b : string) :
  b ∈ unique_base_values cells ↔
    (∃ cell : string, cell ∈ cells ∧ b = upper (strip cell))
    ∧ b ≠ "" ∧ b ≠ "NAN" ∧ b ≠ "NONE".
Proof.
  unfold unique_base_values, str_upper, str_strip.
  rewrite list_elem_of_filter, elem_of_unique, not_excluded_spec.
  rewrite <- list_fmap_compose, list_elem_of_fmap. simpl.
  split.
  - intros [H1 (cell & -> & Hin)]. split; [eauto|done].
  - intros [(cell & Hin & ->) H2]. split; [done|eauto].
Qed.

Lemma NoDup_unique_base_values (cells : list string) :
  NoDup (unique_base_values cells).
Proof. apply NoDup_filter, NoDup_unique. Qed.

Lemma extract_base_name_nonempty (b : string) : extract_base_name b ≠ Some "".
Proof.
  intros H. assert (normalize_spec b = Some "") as Hn.
  { rewrite <- H. symmetry.
    apply extract_base_name_unguarded; intros ->; discriminate. }
  by apply normalize_spec_normal in Hn as [? _].
Qed.

Lemma group_of_snoc (k b : string) (values : list string) :
  group_of k (values ++ [b]) =
    if bool_decide (extract_base_name b = Some k) then group_of k values ++ [b]
    else group_of k values.
Proof.
  unfold group_of. rewrite filter_app, filter_cons, filter_nil.
  case_bool_decide; case_decide; try done. by rewrite app_nil_r.
Qed.

(** What the loop has stored under a key after any part of the scan. *)
Lemma foldl_mapping_step_lookup (values : list string) (k : string) :
  foldl mapping_step ∅ values !! k =
    if bool_decide (group_of k values = []) then None else Some (group_of k values).
Proof.
  induction values as [|b values IH] using rev_ind; [done|].
  rewrite foldl_snoc, group_of_snoc.
  set (m := foldl mapping_step ∅ values) in *.
  unfold mapping_step.
  destruct (extract_base_name b) as [n|] eqn:Hb.
  - rewrite (bool_decide_eq_false_2 (n = ""))
      by (intros ->; by apply extract_base_name_nonempty in Hb).
    destruct (decide (n = k)) as [->|Hnk].
    + rewrite (bool_decide_eq_true_2 (Some k = Some k)) by done.
      rewrite lookup_insert_eq.
      rewrite (bool_decide_eq_false_2 (group_of k values ++ [b] = []))
        by (by destruct (group_of k values)).
      f_equal. f_equal.
      destruct (m !! k) as [old|] eqn:Hm.
      * rewrite Hm. simpl. case_bool_decide; by simplify_eq.
      * rewrite lookup_insert_eq. simpl. case_bool_decide as Hg; [by rewrite Hg|done].
    + rewrite lookup_insert_ne by done.
      rewrite (bool_decide_eq_false_2 (Some n = Some k)) by congruence.
      destruct (m !! n); [done|]. by rewrite lookup_insert_ne.
  - rewrite (bool_decide_eq_false_2 (None = Some k)) by done. done.
Qed.

Lemma build_mapping_lookup (cells : list string) (k : string) :
  build_mapping cells !! k =
    if bool_decide (group_of k (unique_base_values cells) = []) then None
    else Some (group_of k (unique_base_values cells)).
Proof. apply foldl_mapping_step_lookup. Qed.

Lemma build_mapping_members (cells : list string) (k : string) :
  default [] (build_mapping cells !! k) = group_of k (unique_base_values cells).
Proof. rewrite build_mapping_lookup. by case_bool_decide as H; [rewrite H|]. Qed.

(** *** Column loops *)

Lemma load_base_col_first (cols : list string) (c : string) :
  load_base_col cols = Some c ↔
    ∃ pre post : list string,
      cols = pre ++ c :: post ∧ is_base_column c = true
      ∧ Forall (λ x, is_base_column x = false) pre.
Proof.
  induction cols as [|x cols IH]; simpl.
  - split; [done|]. intros (pre & post & H & _). by destruct pre.
  - destruct (is_base_column x) eqn:Hx.
    + split.
      * intros [= ->]. by exists [], cols.
      * intros (pre & post & H & Hc & Hpre). destruct pre as [|y pre].
        -- by simplify_eq/=.
        -- simplify_eq/=. apply Forall_cons in Hpre as [? _]. congruence.
    + rewrite IH. split.
      * intros (pre & post & -> & Hc & Hpre). exists (x :: pre), post.
        split_and!; [done|done|by constructor].
      * intros (pre & post & H & Hc & Hpre). destruct pre as [|y pre].
        -- simplify_eq/=. congruence.
        -- simplify_eq/=. apply Forall_cons in Hpre as [_ ?]. by exists pre, post.
Qed.

Lemma find_columns_snoc (cols : list string) (x : string) :
  find_columns (cols ++ [x]) = find_columns_step (find_columns cols) x.
Proof. unfold find_columns. by rewrite foldl_snoc. Qed.

(** The loop without [break] keeps the last match: it is the loop with
    [break] run over the columns from the right. *)
Lemma main_base_col_last (cols : list string) :
  main_base_col cols = load_base_col (reverse cols).
Proof.
  induction cols as [|x cols IH] using rev_ind; [done|].
  unfold main_base_col in *. rewrite find_columns_snoc, reverse_snoc. simpl.
  by rewrite IH.
Qed.

Lemma load_base_col_elem_of (cols : list string) (c : string) :
  load_base_col cols = Some c → c ∈ cols ∧ c ≠ "".
Proof.
  intros (pre & post & -> & Hc & _)%load_base_col_first. split.
  - apply elem_of_app. right. by left.
  - intros ->. discriminate.
Qed.

End MappingFacts.

(** * The mapping and the base column: claims C3 and C5 *)




(** C5, on the code.  The loop that runs at load time stops at the first
    column whose lower-cased name is one of the four; the loop of the main
    flow has no [break] and ends on the last such column.  With the columns
    Base and Bases the mapping is built from Base and the pages read Bases. *)
Theorem base_col_resolution :
  (∀ (cols : list string) (c : string),
     load_base_col cols = Some c ↔
       ∃ pre post : list string,
         cols = pre ++ c :: post ∧ is_base_column c = true
         ∧ Forall (λ x, is_base_column x = false) pre)
  ∧ (∀ cols : list string, main_base_col cols = load_base_col (reverse cols))
  ∧ load_base_col ["Base"; "Bases"] = Some "Base"
  ∧ main_base_col ["Base"; "Bases"] = Some "Bases".
Proof.
  split_and!; [exact load_base_col_first|exact main_base_col_last|done|done].
Qed.

(** * Facts about the filters and the runs *)

Section FilterFacts.
Context {R : Regex}.

Lemma select_sublist {A : Type} (l : list A) (mask : list bool) :
  (filter (λ rm : A * bool, rm.2 = true) (zip l mask)).*1 `sublist_of` l.
Proof.
  revert mask. induction l as [|x l IH]; intros [|b mask]; simpl;
    try apply sublist_nil_l.
  rewrite filter_cons. case_decide.
  - rewrite fmap_cons. simpl. by apply sublist_skip.
  - by apply sublist_cons.
Qed.

Lemma select_subframe (mask : list bool) (data : DataFrame) :
  subframe (select mask data) data.
Proof. split; [done|apply select_sublist]. Qed.

Lemma subframe_refl (data : DataFrame) : subframe data data.
Proof. by split. Qed.

Lemma apply_status_filter_subframe (sf : StatusFilter) (cc : string) (data : DataFrame) :
  ∃ d' : DataFrame, apply_status_filter sf cc data = Ok d' ∧ subframe d' data.
Proof.
  unfold apply_status_filter.
  destruct (has_column cc data) eqn:Hcc.
  - apply has_column_index in Hcc as [i Hi]. rewrite (getitem_index _ _ _ Hi).
    destruct sf; simpl; eexists; (split; [done|]);
      auto using subframe_refl, select_subframe.
  - destruct sf; eexists; (split; [done|]); apply subframe_refl.
Qed.

Lemma search_filter_subframe (term : string) (data d' : DataFrame) :
  search_filter term data = Ok d' → subframe d' data.
Proof.
  unfold search_filter. destruct (search_mask term data) as [mask|e]; simpl; [|done].
  intros [= <-]. apply select_subframe.
Qed.

Lemma combine_filter_subframe (b1 b2 : string) (bc : option string) (data d' : DataFrame) :
  combine_filter b1 b2 bc data = Ok (Some d') → subframe d' data.
Proof.
  unfold combine_filter. destruct bc as [bc|]; [|done].
  destruct (_ && _); [|done].
  destruct (getitem data bc) as [cells|e]; simpl; [|done].
  destruct (str_contains_nocase _ cells) as [m1|e]; simpl; [|done].
  destruct (str_contains_nocase _ cells) as [m2|e]; simpl; [|done].
  intros [= <-]. apply select_subframe.
Qed.

Lemma base_filter_subframe (selected : list string) (mapping : gmap string (list string))
    (bc : string) (data d' : DataFrame) :
  base_filter selected mapping bc data = Ok d' → subframe d' data.
Proof.
  unfold base_filter. destruct (getitem data bc) as [cells|e]; simpl; [|done].
  intros [= <-]. apply select_subframe.
Qed.

(** A run writes nothing but the working frame. *)
Lemma run_frame (req : Request) (s : Session) :
  original_df (run req s).1 = original_df s
  ∧ base_name_mapping (run req s).1 = base_name_mapping s
  ∧ selected_bases (run req s).1 = selected_bases s.
Proof. unfold run. repeat case_match; done. Qed.

Lemma run_all_frame (reqs : list Request) (s : Session) :
  original_df (run_all reqs s) = original_df s
  ∧ base_name_mapping (run_all reqs s) = base_name_mapping s
  ∧ selected_bases (run_all reqs s) = selected_bases s.
Proof.
  revert s. induction reqs as [|req reqs IH]; intros s; [done|].
  unfold run_all in *. simpl.
  destruct (IH (run req s).1) as (-> & -> & ->). apply run_frame.
Qed.

(** A run either leaves the session as it was, or replaces the working
    frame by rows of the canonical one. *)
Lemma run_cases (req : Request) (s : Session) :
  (run req s).1 = s
  ∨ ∃ d o d' : DataFrame,
      df s = Some d ∧ original_df s = Some o
      ∧ (run req s).1 = set_df d' s ∧ subframe d' o.
Proof.
  unfold run.
  destruct (df s) as [d|] eqn:Hd; [|by left].
  destruct (original_df s) as [o|] eqn:Ho; [|by left].
  destruct (apply_status_filter_subframe (status_filter req)
              (main_checker_col (columns d)) d) as (d' & -> & _).
  destruct (page req); repeat case_match; simpl; try (by left).
  - right. eexists d, o, _. split_and!; [done|done|done|].
    by eapply base_filter_subframe.
  - right. exists d, o, o. split_and!; [done|done|done|apply subframe_refl].
Qed.

Lemma run_working (req : Request) (s : Session) :
  working_subset s →
  working_subset (run req s).1 ∧ same_canonical (run req s).1 s.
Proof.
  intros Hs.
  destruct (run_cases req s) as [->|(d & o & d' & Hd & Ho & -> & Hsub)].
  - split; [done|]. split_and!; [done|done|by destruct (df s)].
  - unfold working_subset, same_canonical in *. simpl.
    rewrite Hd, Ho in *. split; [done|]. split_and!; [done|done|].
    destruct Hsub as [-> _]. by destruct Hs as [-> _].
Qed.

Lemma same_canonical_trans (s1 s2 s3 : Session) :
  same_canonical s1 s2 → same_canonical s2 s3 → same_canonical s1 s3.
Proof.
  intros (Ho1 & Hm1 & H1) (Ho2 & Hm2 & H2).
  split_and!; [congruence|congruence|].
  destruct (df s1), (df s2), (df s3); try done. congruence.
Qed.

Lemma same_canonical_refl (s : Session) : same_canonical s s.
Proof. split_and!; [done|done|]. by destruct (df s). Qed.

Lemma run_all_working (reqs : list Request) (s : Session) :
  working_subset s →
  working_subset (run_all reqs s) ∧ same_canonical (run_all reqs s) s.
Proof.
  revert s. induction reqs as [|req reqs IH]; intros s Hs.
  - split; [done|apply same_canonical_refl].
  - destruct (run_working req s Hs) as [Hw Hc].
    destruct (IH _ Hw) as [Hw' Hc'].
    split; [exact Hw'|]. by eapply same_canonical_trans.
Qed.

(** What a page that reads the canonical frame shows depends on the
    canonical frame, the mapping and the columns only. *)
Lemma run_view_same_canonical (req : Request) (s1 s2 : Session) :
  same_canonical s1 s2 → reads_canonical (page req) →
  (run req s1).2 = (run req s2).2.
Proof.
  intros (Ho & Hm & Hd) Hp. unfold run. rewrite Ho, Hm.
  destruct (df s1) as [d1|], (df s2) as [d2|]; try done.
  rewrite Hd.
  destruct (original_df s2) as [o|]; [|done].
  destruct (apply_status_filter_subframe (status_filter req)
              (main_checker_col (columns d2)) d1) as (d1' & -> & _).
  destruct (apply_status_filter_subframe (status_filter req)
              (main_checker_col (columns d2)) d2) as (d2' & -> & _).
  destruct (page req); try done; repeat case_match; simplify_eq/=; done.
Qed.

End FilterFacts.

(** * The combine filter *)

Lemma literal_engine_literal : RegexLiteral literal_engine.
Proof.
  constructor. intros pat Hpat. simpl. rewrite Hpat.
  by exists (contains_nocase pat).
Qed.

Section CombineFacts.
Context {R : Regex} {RL : RegexLiteral R}.

Lemma str_contains_nocase_literal (pat : string) (series : list string) :
  literal pat = true →
  str_contains_nocase pat series = Ok (contains_nocase pat <$> series).
Proof.
  intros Hpat. unfold str_contains_nocase.
  destruct (re_compile_literal pat Hpat) as (m & -> & Hm). simpl.
  f_equal. by apply list_fmap_ext.
Qed.

Lemma contains_nocase_strip_upper (b cell : string) :
  contains_nocase (strip (upper b)) cell = contains_nocase (strip b) cell.
Proof. unfold contains_nocase. by rewrite strip_upper, lower_upper. Qed.

Lemma combine_filter_literal (b1 b2 bc : string) (data : DataFrame) (i : nat) :
  b1 ≠ "" → b2 ≠ "" → bc ≠ "" →
  literal b1 = true → literal b2 = true →
  col_index data bc = Some i →
  combine_filter b1 b2 (Some bc) data =
    Ok (Some {| columns := columns data;
                rows := either_fragment_rows (strip b1) (strip b2) i data |}).
Proof.
  intros H1 H2 Hbc Hl1 Hl2 Hi. unfold combine_filter.
  rewrite !bool_decide_eq_false_2 by done. simpl.
  rewrite (getitem_index _ _ _ Hi). simpl.
  rewrite !str_contains_nocase_literal by by apply literal_strip_upper.
  simpl. rewrite mask_or_fmap. unfold select, either_fragment_rows.
  do 3 f_equal.
  rewrite <- list_fmap_compose, select_fmap.
  apply list_filter_iff. intros row. simpl.
  by rewrite orb_true_iff, !contains_nocase_strip_upper.
Qed.

End CombineFacts.

Lemma either_fragment_rows_union (x y : string) (i : nat) (data : DataFrame)
    (row : list string) :
  row ∈ either_fragment_rows x y i data ↔
    row ∈ fragment_rows x i data ∨ row ∈ fragment_rows y i data.
Proof.
  unfold either_fragment_rows, fragment_rows. rewrite !list_elem_of_filter. tauto.
Qed.

Lemma either_fragment_rows_comm (x y : string) (i : nat) (data : DataFrame) :
  either_fragment_rows x y i data = either_fragment_rows y x i data.
Proof. apply list_filter_iff. intros row. tauto. Qed.

(** * The filters: claims C8 and C9 *)






(** * More of the code *)

(** ** More on extract_base_name and the split *)

(** [sep.join(parts)]. *)
Fixpoint str_join (sep : string) (parts : list string) : string :=
  match parts with
  | [] => EmptyString
  | [p] => p
  | p :: rest => p +:+ sep +:+ str_join sep rest
  end.

Section NormalizerMore.

Lemma normalize_spec_normalized (raw : string) :
  normalize_spec (upper (strip raw)) = normalize_spec raw.
Proof.
  unfold normalize_spec.
  by rewrite strip_upper, strip_idemp, upper_idemp.
Qed.

Lemma normalize_spec_fixed (out : string) :
  out ≠ "" → has_outer_space out = false →
  all_chars (λ c, negb (is_lower_char c)) out = true →
  contains "-US-" out = false →
  normalize_spec out = Some out.
Proof.
  intros Hne Hsp Hup Hd. unfold normalize_spec.
  rewrite (no_outer_space_strip _ Hsp), (no_lower_upper _ Hup), Hd.
  by rewrite bool_decide_eq_false_2.
Qed.

Lemma str_partition_before (c : ascii) (sep s a b : string) :
  str_partition (String c sep) s = Some (a, b) →
  contains (String c sep) a = false.
Proof.
  revert a b. induction s as [|d s IH]; intros a b.
  - simpl. done.
  - change (str_partition (String c sep) (String d s)) with
      (if startswith (String c sep) (String d s)
       then Some (EmptyString, str_drop (String.length (String c sep)) (String d s))
       else match str_partition (String c sep) s with
            | Some (a, b) => Some (String d a, b)
            | None => None
            end).
    destruct (startswith (String c sep) (String d s)) eqn:E.
    + intros [= <- <-]. done.
    + destruct (str_partition (String c sep) s) as [[a' b']|] eqn:Ep; [|done].
      intros [= <- <-].
      change (contains (String c sep) (String d a')) with
        (startswith (String c sep) (String d a') || contains (String c sep) a').
      rewrite (IH _ _ eq_refl), orb_false_r.
      destruct (startswith (String c sep) (String d a')) eqn:E'; [|done].
      apply startswith_spec in E' as [r Hr].
      apply str_partition_spec in Ep. rewrite Ep in E.
      assert (startswith (String c sep) (String d (a' +:+ String c sep +:+ b')) = true)
        as Hs; [|congruence].
      apply startswith_spec. exists (r +:+ String c sep +:+ b').
      change (String d (a' +:+ String c sep +:+ b'))
        with (String d a' +:+ String c sep +:+ b').
      rewrite Hr. by rewrite !str_app_assoc.
Qed.

Lemma str_join_cons (sep a : string) (l : list string) :
  l ≠ [] → str_join sep (a :: l) = a +:+ sep +:+ str_join sep l.
Proof. by destruct l. Qed.

Lemma str_split_join (c : ascii) (sep s : string) :
  str_join (String c sep) (str_split (String c sep) s) = s.
Proof.
  induction s as [s IH] using string_length_ind.
  rewrite str_split_step.
  destruct (str_partition (String c sep) s) as [[a b]|] eqn:E; [|done].
  rewrite str_join_cons by apply str_split_nonempty.
  rewrite IH by (by eapply str_partition_shorter).
  symmetry. by apply str_partition_spec.
Qed.

Lemma str_split_parts (c : ascii) (sep s : string) :
  Forall (λ p, contains (String c sep) p = false) (str_split (String c sep) s).
Proof.
  induction s as [s IH] using string_length_ind.
  rewrite str_split_step.
  destruct (str_partition (String c sep) s) as [[a b]|] eqn:E.
  - constructor; [by eapply str_partition_before|].
    apply IH. by eapply str_partition_shorter.
  - constructor; [|done]. by apply str_partition_None.
Qed.

End NormalizerMore.





(** X3.  Splitting a text on a delimiter that is not empty and joining the
    segments with the delimiter gives the text back; no segment holds the
    delimiter, and there is always at least one segment. *)
Theorem str_split_join_round_trip (c : ascii) (sep s : string) :
  str_join (String c sep) (str_split (String c sep) s) = s
  ∧ Forall (λ p, contains (String c sep) p = false) (str_split (String c sep) s)
  ∧ str_split (String c sep) s ≠ [].
Proof.
  split_and!; [apply str_split_join|apply str_split_parts|apply str_split_nonempty].
Qed.

(** ** More on the snapshots *)

(** The frame whose rows are those of a frame that pass a test. *)
Definition rows_where (P : list string → bool) (data : DataFrame) : DataFrame :=
  {| columns := columns data; rows := filter (λ r, P r = true) (rows data) |}.

(** The test of a status filter on one status cell. *)
Definition status_test (sf : StatusFilter) (status : string) : bool :=
  match sf with
  | ShowAll => true
  | Approved => cell_approved status
  | NotApproved => cell_not_approved status
  | NotInTime => cell_not_in_time status
  end.

Section SnapshotMore.

Lemma cell_approved_not_approved (status : string) :
  cell_approved status = true → cell_not_approved status = false.
Proof.
  unfold cell_approved, cell_not_approved.
  intros [_ H]%andb_true_iff. by apply negb_true_iff.
Qed.

Lemma tally_bounds (statuses : list string) :
  approved (tally statuses) + not_approved (tally statuses) ≤ total (tally statuses)
  ∧ not_in_time (tally statuses) ≤ total (tally statuses)
  ∧ total (tally statuses) = length statuses.
Proof.
  induction statuses as [|s l (IH1 & IH2 & IH3)]; simpl; [lia|].
  pose proof (cell_approved_not_approved s) as Hs.
  destruct (cell_approved s), (cell_not_approved s), (cell_not_in_time s);
    try (specialize (Hs eq_refl); discriminate); simpl; lia.
Qed.

Lemma tally_all (sf : StatusFilter) (statuses : list string) :
  Forall (λ s, status_test sf s = true) statuses →
  match sf with
  | ShowAll => True
  | Approved =>
      approved (tally statuses) = total (tally statuses)
      ∧ not_approved (tally statuses) = 0
  | NotApproved =>
      not_approved (tally statuses) = total (tally statuses)
      ∧ approved (tally statuses) = 0
  | NotInTime => not_in_time (tally statuses) = total (tally statuses)
  end.
Proof.
  induction 1 as [|s l Hs _ IH]; [by destruct sf|].
  destruct sf; simpl in *; [done| | |].
  - rewrite Hs, (cell_approved_not_approved _ Hs). simpl. lia.
  - rewrite Hs. destruct (cell_approved s) eqn:Ha.
    + apply cell_approved_not_approved in Ha. congruence.
    + simpl. lia.
  - rewrite Hs. simpl. lia.
Qed.

Lemma calculate_statistics_cases (data : option DataFrame) (cc : string) (st : Stats) :
  calculate_statistics data cc = Ok st →
  st = zero_stats
  ∨ ∃ (d : DataFrame) (i : nat),
      data = Some d ∧ col_index d cc = Some i ∧ st = tally (cell_at i <$> rows d).
Proof.
  destruct data as [d|]; [|intros [= <-]; by left].
  destruct (has_column cc d) eqn:Hcc.
  - apply has_column_index in Hcc as [i Hi].
    rewrite (calculate_statistics_tally _ _ _ Hi). intros [= <-]. right. eauto.
  - rewrite calculate_statistics_no_column by done. intros [= <-]. by left.
Qed.

Lemma apply_status_filter_rows (sf : StatusFilter) (cc : string) (data : DataFrame)
    (i : nat) :
  col_index data cc = Some i →
  apply_status_filter sf cc data
  = Ok (if sf is ShowAll then data
        else rows_where (λ r, status_test sf (cell_at i r)) data).
Proof.
  intros Hi. unfold apply_status_filter.
  assert (has_column cc data = true) as -> by (apply has_column_index; eauto).
  rewrite (getitem_index _ _ _ Hi). simpl.
  destruct sf; [done| | |]; f_equal; unfold select, rows_where; f_equal.
  - rewrite approved_mask_rows. apply select_fmap.
  - rewrite not_approved_mask_rows. apply select_fmap.
  - rewrite not_in_time_mask_rows. apply select_fmap.
Qed.

Lemma apply_status_filter_no_column (sf : StatusFilter) (cc : string) (data : DataFrame) :
  has_column cc data = false → apply_status_filter sf cc data = Ok data.
Proof. intros H. unfold apply_status_filter. rewrite H. by destruct sf. Qed.

Lemma rows_where_idemp (P : list string → bool) (data : DataFrame) :
  rows_where P (rows_where P data) = rows_where P data.
Proof.
  unfold rows_where. simpl. f_equal.
  rewrite list_filter_filter. apply list_filter_iff. tauto.
Qed.

Lemma percentage_range (bucket total : nat) :
  bucket ≤ total →
  ∃ q : Q, percentage bucket total = Ok q
           ∧ Qle (inject_Z 0) q ∧ Qle q (inject_Z 100).
Proof.
  intros Hle. unfold percentage, truediv.
  destruct total as [|n]; simpl.
  - eexists. split; [done|]. split; unfold Qle; simpl; lia.
  - eexists. split; [done|]. unfold Qle, Qmult, inject_Z. simpl.
    rewrite ?Pos.mul_1_r, ?Z.mul_1_r.
    assert (Z.pos (Pos.of_nat (S n)) = Z.of_nat (S n)) as Hp
      by (rewrite <- Pos.of_nat_succ, Zpos_P_of_succ_nat; lia).
    split; [lia|]. rewrite Hp. lia.
Qed.

End SnapshotMore.

(** X4.  In every snapshot that [calculate_statistics] returns, the approved
    and the not approved rows together are no more than the total (no row is
    in both), and the rows not in time are no more than the total; the total
    is at most the number of rows of the frame.  The three buckets together
    can exceed the total: one row "Approved but not in time" is counted
    twice. *)
Theorem snapshot_bounds (data : option DataFrame) (checker_col : string) (st : Stats) :
  calculate_statistics data checker_col = Ok st →
  approved st + not_approved st ≤ total st
  ∧ not_in_time st ≤ total st
  ∧ total st ≤ from_option len 0 data.
Proof.
  intros [->|(d & i & -> & Hi & ->)]%calculate_statistics_cases.
  - simpl. lia.
  - destruct (tally_bounds (cell_at i <$> rows d)) as (H1 & H2 & H3).
    split_and!; [done|done|]. rewrite H3, length_fmap. done.
Qed.

Lemma snapshot_bounds_witness :
  calculate_statistics
    (Some {| columns := ["Checker"]; rows := [["Approved but not in time"]] |})
    "Checker"
  = Ok {| approved := 1; not_approved := 0; not_in_time := 1; total := 1 |}
  ∧ 1 + 0 ≤ 1 ∧ 1 ≤ 1 ∧ 1 ≤ 1.
Proof.
  split; [reflexivity|].
  apply (snapshot_bounds
           (Some {| columns := ["Checker"]; rows := [["Approved but not in time"]] |})
           "Checker"
           {| approved := 1; not_approved := 0; not_in_time := 1; total := 1 |}).
  reflexivity.
Defined.

(** X5.  The three percentages derived from a snapshot of
    [calculate_statistics] are numbers between 0 and 100, so the value handed
    to the progress bar, the percentage over 100, is between 0 and 1. *)
Theorem snapshot_percentages_in_range (data : option DataFrame) (checker_col : string)
    (st : Stats) :
  calculate_statistics data checker_col = Ok st →
  ∀ bucket : nat,
    bucket ∈ [approved st; not_approved st; not_in_time st] →
    ∃ q : Q, percentage bucket (total st) = Ok q
             ∧ Qle (inject_Z 0) q ∧ Qle q (inject_Z 100)
             ∧ Qle (inject_Z 0) (Qdiv q (inject_Z 100))
             ∧ Qle (Qdiv q (inject_Z 100)) (inject_Z 1).
Proof.
  intros Hst bucket Hb.
  assert (bucket ≤ total st) as Hle.
  { assert (approved st + not_approved st ≤ total st ∧ not_in_time st ≤ total st)
      as [H1 H2].
    { apply calculate_statistics_cases in Hst as [->|(d & i & -> & Hi & ->)].
      - simpl. lia.
      - destruct (tally_bounds (cell_at i <$> rows d)) as (? & ? & _). done. }
    repeat (apply elem_of_cons in Hb as [->|Hb]; [lia|]).
    by apply elem_of_nil in Hb. }
  destruct (percentage_range bucket (total st) Hle) as (q & Hq & H0 & H100).
  exists q. split_and!; [done|done|done| |].
  - apply Qle_shift_div_l; [done|]. by rewrite Qmult_0_l.
  - apply Qle_shift_div_r; [done|]. by rewrite Qmult_1_l.
Qed.

Lemma snapshot_percentages_in_range_witness :
  calculate_statistics (Some sample_frame) "Checker"
  = Ok {| approved := 2; not_approved := 1; not_in_time := 0; total := 3 |}
  ∧ ∃ q : Q, percentage 2 3 = Ok q
             ∧ Qle (inject_Z 0) q ∧ Qle q (inject_Z 100)
             ∧ Qle (inject_Z 0) (Qdiv q (inject_Z 100))
             ∧ Qle (Qdiv q (inject_Z 100)) (inject_Z 1).
Proof.
  split; [reflexivity|].
  apply (snapshot_percentages_in_range (Some sample_frame) "Checker"
           {| approved := 2; not_approved := 1; not_in_time := 0; total := 3 |}
           eq_refl 2).
  simpl. left.
Defined.

(** X6.  The snapshot of a frame that went through a status filter: after
    the Approved filter every row is approved and none is not approved;
    after the Not Approved filter every row is not approved and none is
    approved; after the Not in Time filter every row is not in time. *)
Theorem snapshot_of_status_filter (sf : StatusFilter) (checker_col : string)
    (data shown : DataFrame) (st : Stats) :
  has_column checker_col data = true →
  apply_status_filter sf checker_col data = Ok shown →
  calculate_statistics (Some shown) checker_col = Ok st →
  total st = len shown
  ∧ match sf with
    | ShowAll => True
    | Approved => approved st = total st ∧ not_approved st = 0
    | NotApproved => not_approved st = total st ∧ approved st = 0
    | NotInTime => not_in_time st = total st
    end.
Proof.
  intros [i Hi]%has_column_index Hshown Hst.
  rewrite (apply_status_filter_rows _ _ _ _ Hi) in Hshown.
  assert (col_index shown checker_col = Some i) as Hi'.
  { destruct sf; simplify_eq/=; done. }
  rewrite (calculate_statistics_tally _ _ _ Hi') in Hst. simplify_eq/=.
  split.
  - destruct (tally_bounds
                (cell_at i <$> rows (if sf is ShowAll then data
                   else rows_where (λ r, status_test sf (cell_at i r)) data)))
      as (_ & _ & ->).
    by rewrite length_fmap.
  - destruct sf; [done| | |].
    + apply (tally_all Approved). apply Forall_fmap, Forall_forall.
      intros r [Hr _]%list_elem_of_filter. exact Hr.
    + apply (tally_all NotApproved). apply Forall_fmap, Forall_forall.
      intros r [Hr _]%list_elem_of_filter. exact Hr.
    + apply (tally_all NotInTime). apply Forall_fmap, Forall_forall.
      intros r [Hr _]%list_elem_of_filter. exact Hr.
Qed.

Lemma snapshot_of_status_filter_witness :
  has_column "Checker" sample_frame = true
  ∧ apply_status_filter NotApproved "Checker" sample_frame
    = Ok {| columns := ["Base"; "Checker"];
            rows := [["456-US-LY"; "Not Approved"]] |}
  ∧ calculate_statistics
      (Some {| columns := ["Base"; "Checker"];
               rows := [["456-US-LY"; "Not Approved"]] |}) "Checker"
    = Ok {| approved := 0; not_approved := 1; not_in_time := 0; total := 1 |}
  ∧ 1 = 1 ∧ 1 = 1 ∧ 0 = 0.
Proof.
  split_and!; [reflexivity|reflexivity|reflexivity|..];
    apply (snapshot_of_status_filter NotApproved "Checker" sample_frame
             {| columns := ["Base"; "Checker"];
                rows := [["456-US-LY"; "Not Approved"]] |}
             {| approved := 0; not_approved := 1; not_in_time := 0; total := 1 |}
             eq_refl eq_refl eq_refl).
Defined.

(** X7.  The status filter never raises.  "Show All" and a status column
    that is not in the frame leave the frame as it is; otherwise the rows
    kept are those whose status cell passes the test of the filter; and
    filtering the result again with the same filter changes nothing. *)
Theorem status_filter_idempotent (sf : StatusFilter) (checker_col : string)
    (data : DataFrame) :
  ∃ shown : DataFrame,
    apply_status_filter sf checker_col data = Ok shown
    ∧ apply_status_filter sf checker_col shown = Ok shown
    ∧ (sf = ShowAll ∨ has_column checker_col data = false → shown = data)
    ∧ (∀ i : nat, col_index data checker_col = Some i →
         shown = if sf is ShowAll then data
                 else rows_where (λ r, status_test sf (cell_at i r)) data).
Proof.
  destruct (has_column checker_col data) eqn:Hcc.
  - apply has_column_index in Hcc as [i Hi].
    rewrite (apply_status_filter_rows _ _ _ _ Hi).
    eexists. split; [done|]. split_and!.
    + destruct sf; [by rewrite (apply_status_filter_rows _ _ _ _ Hi)|..];
        (rewrite (apply_status_filter_rows _ _ _ i) by done;
         by rewrite rows_where_idemp).
    + intros [->|?]; done.
    + intros j Hj. by simplify_eq.
  - rewrite apply_status_filter_no_column by done.
    exists data. split_and!; [done| |done|].
    + by apply apply_status_filter_no_column.
    + intros i Hi. assert (has_column checker_col data = true) as Ht
        by (apply has_column_index; eauto). congruence.
Qed.

(** ** More on the groups *)

(** The canonical name of the base cell of a row. *)
Definition row_base_name (i : nat) (row : list string) : option string :=
  extract_base_name (upper (strip (cell_at i row))).

(** The name of the base cell of the row is one of the selected names. *)
Definition row_selected (selected : list string) (i : nat) (row : list string) : bool :=
  match row_base_name i row with
  | Some k => bool_decide (k ∈ selected)
  | None => false
  end.

Section GroupsMore.

Lemma filter_iff_elem_of {A : Type} (P Q : A → Prop) `{!∀ x, Decision (P x)}
    `{!∀ x, Decision (Q x)} (l : list A) :
  (∀ x, x ∈ l → P x ↔ Q x) → filter P l = filter Q l.
Proof.
  induction l as [|x l IH]; intros HPQ; [done|].
  rewrite !filter_cons.
  assert (P x ↔ Q x) as Hx by (apply HPQ; left).
  rewrite IH by (intros y Hy; apply HPQ; by right).
  repeat case_decide; tauto || done.
Qed.

Lemma filter_elem_of_nil {A : Type} (f : A → string) (l : list A) :
  filter (λ x, f x ∈ @nil string) l = [].
Proof.
  induction l as [|x l IH]; [done|].
  rewrite filter_cons. case_decide as Hx; [by apply elem_of_nil in Hx|exact IH].
Qed.

Lemma extract_base_name_not_excluded (b k : string) :
  extract_base_name b = Some k → b ≠ "" ∧ b ≠ "NAN" ∧ b ≠ "NONE".
Proof. intros H. split_and!; intros ->; discriminate. Qed.

(** A value seen in the column is a member of the group [k] exactly when the
    normalizer names it [k]. *)
Lemma group_of_column (cells : list string) (cell k : string) :
  cell ∈ cells →
  upper (strip cell) ∈ group_of k (unique_base_values cells) ↔
    extract_base_name (upper (strip cell)) = Some k.
Proof.
  intros Hin. unfold group_of.
  rewrite list_elem_of_filter, elem_of_unique_base_values. split; [tauto|].
  intros Hk. split; [done|]. split; [eauto|].
  by eapply extract_base_name_not_excluded.
Qed.

Lemma group_rows_built (k : string) (i : nat) (data : DataFrame) :
  group_rows (group_of k (unique_base_values (cell_at i <$> rows data))) i data
  = rows_where (λ r, bool_decide (row_base_name i r = Some k)) data.
Proof.
  unfold group_rows, rows_where. f_equal. apply filter_iff_elem_of.
  intros r Hr. rewrite bool_decide_eq_true. unfold row_base_name.
  apply group_of_column. by apply list_elem_of_fmap_2.
Qed.

Lemma all_original_values_elem_of (mapping : gmap string (list string))
    (selected acc : list string) (v : string) :
  v ∈ foldl (λ acc base_name, acc ++ default [] (mapping !! base_name)) acc selected
  ↔ v ∈ acc ∨ ∃ k : string, k ∈ selected ∧ v ∈ default [] (mapping !! k).
Proof.
  revert acc. induction selected as [|k selected IH]; intros acc; simpl.
  - split; [by left|]. intros [?|(k & Hk & _)]; [done|]. by apply elem_of_nil in Hk.
  - rewrite IH, elem_of_app. split.
    + intros [[?|?]|(k' & Hk' & Hv)]; [by left| |].
      * right. exists k. split; [by left|done].
      * right. exists k'. split; [by right|done].
    + intros [?|(k' & Hk' & Hv)]; [by left; left|].
      apply elem_of_cons in Hk' as [->|Hk']; [by left; right|].
      right. eauto.
Qed.

Lemma base_filter_built (selected : list string) (bc : string) (data : DataFrame)
    (i : nat) :
  col_index data bc = Some i →
  base_filter selected (build_mapping (cell_at i <$> rows data)) bc data
  = Ok (rows_where (row_selected selected i) data).
Proof.
  intros Hi. unfold base_filter. rewrite (getitem_index _ _ _ Hi). simpl.
  rewrite isin_rows. unfold select, rows_where. do 2 f_equal.
  rewrite select_fmap. apply filter_iff_elem_of.
  intros r Hr. rewrite bool_decide_eq_true, all_original_values_elem_of.
  unfold row_selected, row_base_name. split.
  - intros [Hnil|(k & Hk & Hv)]; [by apply elem_of_nil in Hnil|].
    rewrite build_mapping_members in Hv.
    apply group_of_column in Hv; [|by apply list_elem_of_fmap_2].
    rewrite Hv. by apply bool_decide_eq_true.
  - destruct (extract_base_name (upper (strip (cell_at i r)))) as [k|] eqn:Hk; [|done].
    intros Hsel%bool_decide_eq_true. right. exists k. split; [done|].
    rewrite build_mapping_members. apply group_of_column; [|done].
    by apply list_elem_of_fmap_2.
Qed.

End GroupsMore.





(** ** More on the loader, the columns and the runs *)

(** A frame read from a CSV file after the sample workbook. *)
Definition csv_frame : DataFrame :=
  {| columns := ["Base"; "Checker"]; rows := [["9-US-QQ"; "Approved"]] |}.

Section RunsMore.
Context {R : Regex}.

Lemma subframe_trans (a b c : DataFrame) : subframe a b → subframe b c → subframe a c.
Proof. intros [H1 H2] [H3 H4]. split; [congruence|by etrans]. Qed.

Lemma subframe_len (a b : DataFrame) : subframe a b → len a ≤ len b.
Proof. intros [_ H]. by apply sublist_length. Qed.

Lemma find_columns_checker (cols : list string) :
  match (find_columns cols).2 with
  | Some c => c ∈ cols ∧ is_checker_column c = true
  | None => Forall (λ c, is_checker_column c = false) cols
  end.
Proof.
  induction cols as [|x cols IH] using rev_ind; [by constructor|].
  rewrite find_columns_snoc. unfold find_columns_step. simpl.
  destruct (is_checker_column x) eqn:Hx.
  - split; [|done]. apply elem_of_app. right. by left.
  - destruct (find_columns cols).2 as [c|].
    + destruct IH as [Hc ?]. split; [|done]. apply elem_of_app. by left.
    + apply Forall_app. split; [done|]. by constructor.
Qed.

Lemma main_base_col_nonempty (cols : list string) (bc : string) :
  main_base_col cols = Some bc → bc ≠ "".
Proof.
  rewrite main_base_col_last. by intros [_ ?]%load_base_col_elem_of.
Qed.

Lemma run_reset (sf : StatusFilter) (s : Session) (d o : DataFrame) (bc : string) :
  df s = Some d → original_df s = Some o →
  main_base_col (columns d) = Some bc → base_name_mapping s ≠ ∅ →
  (run {| status_filter := sf; page := BasesReset |} s).1 = set_df o s.
Proof.
  intros Hd Ho Hbc Hm. unfold run. rewrite Hd, Ho. simpl.
  destruct (apply_status_filter_subframe sf (main_checker_col (columns d)) d)
    as (d' & -> & _).
  rewrite Hbc.
  rewrite (bool_decide_eq_false_2 (bc = "")) by by eapply main_base_col_nonempty.
  by rewrite (bool_decide_eq_false_2 (base_name_mapping s = ∅)).
Qed.

Lemma run_raise (req : Request) (s : Session) (e : exn) :
  (run req s).2 = Raise e → (run req s).1 = s.
Proof.
  unfold run. repeat case_match; simpl; try done.
Qed.

End RunsMore.



(** X11.  The column that the main flow takes for the status column is one
    of the frame's columns exactly when some column's lower-cased name is
    "checker" or "check".  The fallback to the literal names never finds a
    column: without such a column the name is "checker", which is not in the
    frame, so the snapshot is the zero snapshot and the status filter keeps
    every row. *)
Theorem checker_fallback_finds_nothing (data : DataFrame) :
  (has_column (main_checker_col (columns data)) data = true ↔
     ∃ c : string, c ∈ columns data ∧ is_checker_column c = true)
  ∧ ((∀ c : string, c ∈ columns data → is_checker_column c = false) →
       main_checker_col (columns data) = "checker"
       ∧ calculate_statistics (Some data) (main_checker_col (columns data))
         = Ok zero_stats
       ∧ ∀ sf : StatusFilter,
           apply_status_filter sf (main_checker_col (columns data)) data = Ok data).
Proof.
  pose proof (find_columns_checker (columns data)) as Hfc.
  assert ((∀ c : string, c ∈ columns data → is_checker_column c = false) →
          main_checker_col (columns data) = "checker"
          ∧ has_column (main_checker_col (columns data)) data = false) as Hnone.
  { intros Hno. unfold main_checker_col in *.
    destruct (find_columns (columns data)).2 as [c|].
    { destruct Hfc as [Hc Hcc]. rewrite (Hno _ Hc) in Hcc. done. }
    case_bool_decide as HC; [by specialize (Hno _ HC)|].
    split; [done|]. apply bool_decide_eq_false. intros Hc. by specialize (Hno _ Hc). }
  split.
  - split.
    + intros Hhas. unfold main_checker_col in *.
      destruct (find_columns (columns data)).2 as [c|] eqn:E; [by exists c|].
      exfalso. destruct Hnone as [_ Hf]; [|congruence].
      intros c Hc. by eapply Forall_forall in Hfc.
    + intros (c & Hc & Hcc). unfold main_checker_col.
      destruct (find_columns (columns data)).2 as [c'|].
      * apply bool_decide_eq_true. by destruct Hfc.
      * eapply Forall_forall in Hfc; [|exact Hc]. congruence.
  - intros Hno. destruct (Hnone Hno) as [Heq Hf]. split_and!; [done| |].
    + by apply calculate_statistics_no_column.
    + intros sf. by apply apply_status_filter_no_column.
Qed.

Lemma checker_fallback_finds_nothing_witness :
  main_checker_col (columns {| columns := ["Base"; "Status"]; rows := [["X"; "approved"]] |})
  = "checker"
  ∧ calculate_statistics
      (Some {| columns := ["Base"; "Status"]; rows := [["X"; "approved"]] |})
      (main_checker_col ["Base"; "Status"])
    = Ok zero_stats
  ∧ ∀ sf : StatusFilter,
      apply_status_filter sf (main_checker_col ["Base"; "Status"])
        {| columns := ["Base"; "Status"]; rows := [["X"; "approved"]] |}
      = Ok {| columns := ["Base"; "Status"]; rows := [["X"; "approved"]] |}.
Proof.
  apply (proj2 (checker_fallback_finds_nothing
                  {| columns := ["Base"; "Status"]; rows := [["X"; "approved"]] |})).
  intros c Hc. simpl in Hc.
  repeat (apply elem_of_cons in Hc as [->|Hc]; [reflexivity|]).
  by apply elem_of_nil in Hc.
Defined.







(** ** More on the search *)

(** Some cell of the row, among the columns of the frame, holds the term,
    letter case apart. *)
Definition row_matches (term : string) (ncols : nat) (row : list string) : bool :=
  existsb (λ i, contains_nocase term (cell_at i row)) (seq 0 ncols).

Section SearchMore.
Context {R : Regex} {RL : RegexLiteral R}.

Lemma rmapM_ok {A B : Type} (f : A → result B) (g : A → B) (l : list A) :
  (∀ x, f x = Ok (g x)) → rmapM f l = Ok (g <$> l).
Proof.
  intros Hf. induction l as [|x l IH]; [done|].
  simpl. rewrite Hf. simpl. rewrite IH. done.
Qed.

Lemma replicate_fmap {A B : Type} (x : B) (l : list A) :
  replicate (length l) x = (λ _, x) <$> l.
Proof. induction l as [|y l IH]; simpl; [done|]. by rewrite IH. Qed.

Lemma foldl_mask_or_fmap {A I : Type} (f0 : A → bool) (g : I → A → bool)
    (idxs : list I) (l : list A) :
  foldl mask_or (f0 <$> l) ((λ i, g i <$> l) <$> idxs)
  = (λ r, f0 r || existsb (λ i, g i r) idxs) <$> l.
Proof.
  revert f0. induction idxs as [|i idxs IH]; intros f0; simpl.
  - apply list_fmap_ext. intros _ r _. by rewrite orb_false_r.
  - rewrite mask_or_fmap, IH. apply list_fmap_ext. intros _ r _.
    by rewrite orb_assoc.
Qed.

Lemma search_mask_literal (term : string) (data : DataFrame) :
  literal term = true →
  search_mask term data
  = Ok (row_matches term (length (columns data)) <$> rows data).
Proof.
  intros Hterm. unfold search_mask.
  rewrite (rmapM_ok _ (λ i, contains_nocase term <$> (cell_at i <$> rows data)))
    by (intros i; by apply str_contains_nocase_literal).
  simpl. f_equal. unfold len. rewrite replicate_fmap.
  rewrite (list_fmap_ext _ (λ i, (λ r, contains_nocase term (cell_at i r)) <$> rows data)
             (seq 0 (length (columns data))) )
    by (intros _ i _; by rewrite <- list_fmap_compose).
  by rewrite (foldl_mask_or_fmap (λ _, false)
                (λ i r, contains_nocase term (cell_at i r))).
Qed.

Lemma search_filter_literal (term : string) (data : DataFrame) :
  literal term = true →
  search_filter term data
  = Ok (rows_where (row_matches term (length (columns data))) data).
Proof.
  intros Hterm. unfold search_filter. rewrite search_mask_literal by done.
  simpl. unfold select, rows_where. do 2 f_equal. apply select_fmap.
Qed.

End SearchMore.

Lemma row_matches_spec (term : string) (ncols : nat) (row : list string) :
  row_matches term ncols row = true ↔
    ∃ i : nat, i < ncols ∧ substring_of (lower term) (lower (cell_at i row)).
Proof.
  unfold row_matches. rewrite existsb_exists. split.
  - intros (i & Hin & Hc). exists i. apply in_seq in Hin.
    split; [lia|]. by apply contains_spec.
  - intros (i & Hi & Hc). exists i. split; [apply in_seq; lia|].
    by apply contains_spec.
Qed.



(** ** The password gate *)

(** [s.split(sep, 1)]: one cut, at the first occurrence of [sep]. *)
Definition split_once (sep s : string) : list string :=
  match str_partition sep s with
  | Some (a, b) => [a; b]
  | None => [s]
  end.

(** A value, or the IndexError of [l[i]] past the end of [l]. *)
Inductive indexed (A : Type) : Type :=
  | Item (a : A)
  | IndexError.
Arguments Item {A} a.
Arguments IndexError {A}.

Definition getitem_list {A : Type} (l : list A) (i : nat) : indexed A :=
  match l !! i with
  | Some a => Item a
  | None => IndexError
  end.

(** [get_password], over [sys.argv] and the value of the environment
    variable DATA_ANALYZER_PASSWORD, [None] when it is not set. *)
Fixpoint get_password (argv : list string) (environ : option string)
    : indexed (option string) :=
  match argv with
  | [] => Item environ
  | arg :: argv' =>
      if startswith "--password=" arg
      then match getitem_list (split_once "=" arg) 1 with
           | Item v => Item (Some v)
           | IndexError => IndexError
           end
      else get_password argv' environ
  end.

(** [check_password], with the module-level APP_PASSWORD as an argument. *)
Definition check_password (APP_PASSWORD : option string)
    (password_input : string) : bool :=
  match APP_PASSWORD with
  | None => true
  | Some p => bool_decide (password_input = p)
  end.

(** What a run of the script meets at the gate: the Login button pressed
    with the text of the password box, the Clear button pressed, or
    neither. *)
Inductive GateEvent : Type :=
  | Login (password_input : string)
  | Clear
  | NoButton.

(** One run of the script through the gate, from the [authenticated] flag of
    the session: the flag after the run, and whether the run went on past
    the gate to the application ([st.stop()] and [st.rerun()] end the run
    before it). *)
Definition gate (APP_PASSWORD : option string) (authenticated : bool)
    (ev : GateEvent) : bool * bool :=
  if authenticated then (true, true)
  else
    match APP_PASSWORD with
    | None => (true, true)
    | Some _ =>
        match ev with
        | Login password_input =>
            if check_password APP_PASSWORD password_input
            then (true, false)
            else (false, false)
        | Clear => (false, false)
        | NoButton => (false, false)
        end
    end.

(** The flag after a sequence of runs. *)
Definition gate_runs (APP_PASSWORD : option string) (authenticated : bool)
    (evs : list GateEvent) : bool :=
  foldl (λ a ev, (gate APP_PASSWORD a ev).1) authenticated evs.

Section GateFacts.

Lemma startswith_password (arg : string) :
  startswith "--password=" arg = true →
  split_once "=" arg = ["--password"; str_drop 11 arg].
Proof.
  intros H. apply startswith_spec in H as [v ->].
  reflexivity.
Qed.

Lemma gate_runs_authenticated (pw : option string) (evs : list GateEvent) :
  gate_runs pw true evs = true.
Proof. induction evs as [|ev evs IH]; [done|]. exact IH. Qed.

Lemma gate_runs_login (p : string) (evs : list GateEvent) :
  gate_runs (Some p) false evs = true ↔ Login p ∈ evs.
Proof.
  induction evs as [|ev evs IH].
  - split; [done|]. by intros ?%elem_of_nil.
  - unfold gate_runs. simpl. destruct ev as [i| |]; simpl.
    + case_bool_decide as Hi.
      * subst i. split; [intros _; left|intros _; apply gate_runs_authenticated].
      * fold (gate_runs (Some p) false evs). rewrite IH, elem_of_cons.
        split; [tauto|]. intros [?|?]; [congruence|done].
    + fold (gate_runs (Some p) false evs). rewrite IH, elem_of_cons.
      split; [tauto|]. intros [?|?]; [congruence|done].
    + fold (gate_runs (Some p) false evs). rewrite IH, elem_of_cons.
      split; [tauto|]. intros [?|?]; [congruence|done].
Qed.

End GateFacts.

(** X16.  [get_password] never raises IndexError.  The first argument that
    starts with --password= decides: the password is everything after that
    prefix, later = signs included, whatever the arguments after it and the
    environment are; with no such argument the password is the environment
    variable, and there is none when that is unset. *)
Theorem get_password_first_argument (environ : option string) :
  (∀ argv : list string, ∃ pw, get_password argv environ = Item pw)
  ∧ (∀ (before after : list string) (v : string),
       Forall (λ arg, startswith "--password=" arg = false) before →
       get_password (before ++ ("--password=" +:+ v) :: after) environ
       = Item (Some v))
  ∧ (∀ argv : list string,
       Forall (λ arg, startswith "--password=" arg = false) argv →
       get_password argv environ = Item environ).
Proof.
  split_and!.
  - intros argv. induction argv as [|arg argv IH]; [by eexists|].
    cbn [get_password].
    destruct (startswith "--password=" arg) eqn:E; [|done].
    rewrite (startswith_password _ E). by eexists.
  - intros before after v Hb. induction Hb as [|arg before Harg _ IH].
    + reflexivity.
    + cbn [app get_password]. by rewrite Harg.
  - intros argv Ha. induction Ha as [|arg argv Harg _ IH]; [done|].
    cbn [get_password]. by rewrite Harg.
Qed.

Lemma get_password_first_argument_witness :
  Forall (λ arg, startswith "--password=" arg = false) ["app.py"; "--port=1"]
  ∧ get_password ["app.py"; "--port=1"; "--password=a=b"; "--password=c"]
      (Some "env") = Item (Some "a=b")
  ∧ get_password ["app.py"; "--port=1"] (Some "env") = Item (Some "env")
  ∧ get_password ["app.py"; "--password="] None = Item (Some "").
Proof.
  assert (Forall (λ arg, startswith "--password=" arg = false)
            ["app.py"; "--port=1"]) as Hb by (repeat constructor).
  split_and!; [exact Hb| | |reflexivity].
  - exact (proj1 (proj2 (get_password_first_argument (Some "env")))
             ["app.py"; "--port=1"] ["--password=c"] "a=b" Hb).
  - exact (proj2 (proj2 (get_password_first_argument (Some "env")))
             ["app.py"; "--port=1"] Hb).
Defined.

(** X17.  With a password [p] set, a session that starts unauthenticated is
    authenticated after a sequence of runs exactly when one of them pressed
    Login with the text [p] itself, and the run that follows goes past the
    gate to the application exactly then: neither the Clear button, nor a
    run without a button, nor any other text opens it.  With no password
    set, the first run already goes through. *)
Theorem gate_opens_on_password (p : string) (evs : list GateEvent)
    (ev : GateEvent) :
  (gate_runs (Some p) false evs = true ↔ Login p ∈ evs)
  ∧ ((gate (Some p) (gate_runs (Some p) false evs) ev).2 = true
     ↔ Login p ∈ evs)
  ∧ gate None false ev = (true, true).
Proof.
  split_and!; [apply gate_runs_login| |done].
  rewrite <- gate_runs_login.
  destruct (gate_runs (Some p) false evs); simpl; [done|].
  destruct ev as [i| |]; simpl; [|done|done].
  by case_bool_decide.
Qed.

(** ** The Test Card page *)

(** The column loops of the page, which stop at the first match: the first
    column whose lower-cased name is among [names]. *)
Fixpoint first_column (names : list string) (cols : list string)
    : option string :=
  match cols with
  | [] => None
  | col :: cols' =>
      if bool_decide (lower col ∈ names) then Some col
      else first_column names cols'
  end.

Definition number_names : list string :=
  ["number"; "card number"; "cardnumber"; "card"; "num"].
Definition card_number_names : list string :=
  ["card number"; "cardnumber"; "card_number"].
Definition expire_names : list string :=
  ["expire"; "expiration"; "exp"; "expdate"; "exp_date"].
Definition cvv_names : list string := ["cvv"; "cvc"; "cvv2"].
Definition zip_names : list string :=
  ["zip"; "zipcode"; "zip_code"; "postal"; "postalcode"; "postal_code"].

(** [col and col in selected_row.index], and then [str(selected_row[col])]:
    the text of the selected row under the column, [None] when the test
    fails.  The row lists, column by column of the frame, the text [str]
    gives for its cell. *)
Definition row_cell (cols : list string) (selected_row : list string)
    (col : option string) : option string :=
  match col with
  | None => None
  | Some c =>
      if bool_decide (c = "") then None
      else (λ i, cell_at i selected_row)
             <$> (fst <$> list_find (λ c', c' = c) cols)
  end.

(** [value and value.lower() not in ['nan', 'none', '']]. *)
Definition usable (value : string) : bool :=
  negb (bool_decide (value = ""))
  && negb (bool_decide (lower value ∈ ["nan"; "none"; ""])).

(** [if usable: values_to_fill.append(value)]. *)
Definition append_usable (values_to_fill : list string) (value : string)
    : list string :=
  if usable value then values_to_fill ++ [value] else values_to_fill.

(** The values collected for the form, in the order of the source: card
    number (from the number column only when no card number column was
    found), expiration date, CVV, the made-up cardholder name, zip. *)
Definition values_to_fill (cols : list string) (selected_row : list string)
    : list string :=
  let number_col := first_column number_names cols in
  let values := [] in
  let card_number_col := first_column card_number_names cols in
  let values :=
    match row_cell cols selected_row card_number_col with
    | Some card_value => append_usable values card_value
    | None =>
        match row_cell cols selected_row number_col with
        | Some card_value => append_usable values card_value
        | None => values
        end
    end in
  let expire_col := first_column expire_names cols in
  let values :=
    match row_cell cols selected_row expire_col with
    | Some expire_value => append_usable values expire_value
    | None => values
    end in
  let cvv_col := first_column cvv_names cols in
  let values :=
    match row_cell cols selected_row cvv_col with
    | Some cvv_value => append_usable values cvv_value
    | None => values
    end in
  let cardholder_name := "Test User" in
  let values := values ++ [cardholder_name] in
  let zip_col := first_column zip_names cols in
  let values :=
    match row_cell cols selected_row zip_col with
    | Some zip_value => append_usable values zip_value
    | None => values
    end in
  values.

(** What the page does to the desktop, the pauses left out; every call is
    taken to return. *)
Inductive Action : Type :=
  | Hotkey (keys : list string)
  | Press (key : string)
  | Click (x y : Z)
  | Copy (text : string).

(** Copy the value, select all, paste. *)
Definition paste_value (value : string) : list Action :=
  [Copy value; Hotkey ["ctrl"; "a"]; Hotkey ["ctrl"; "v"]].

(** [values_to_fill[i] if len(values_to_fill) > i else None]. *)
Definition slot (values : list string) (i : nat) : option string :=
  if i <? length values then values !! i else None.

(** [if value:] on such a slot. *)
Definition truthy (value : option string) : bool :=
  match value with
  | Some v => negb (bool_decide (v = ""))
  | None => false
  end.

(** The filling of the form, from the switch to the other tab to the switch
    back: the actions in order, and [filled_fields].  [card_number_xy] is
    the place of the click on the card number field. *)
Definition fill_form (values : list string) (card_number_xy : Z * Z)
    : list Action * nat :=
  let acts := [Hotkey ["ctrl"; "tab"]] in
  let card_number_value := slot values 0 in
  let acts :=
    if truthy card_number_value then
      acts ++ [Click card_number_xy.1 card_number_xy.2]
           ++ paste_value (default "" card_number_value)
           ++ [Press "tab"; Press "tab"]
    else acts in
  let expiration_value := slot values 1 in
  let acts :=
    if truthy expiration_value then
      acts ++ paste_value (default "" expiration_value) ++ [Press "tab"]
    else acts in
  let cvv_value := slot values 2 in
  let acts :=
    if truthy cvv_value then acts ++ paste_value (default "" cvv_value)
    else acts in
  let filled_fields := 1 in
  let filled_fields :=
    if truthy expiration_value then filled_fields + 1 else filled_fields in
  let filled_fields :=
    if truthy cvv_value then filled_fields + 1 else filled_fields in
  let remaining_values := if 3 <? length values then drop 3 values else [] in
  let '(acts, filled_fields) :=
    foldl (λ '(acts, filled_fields) value,
             (acts ++ [Press "tab"] ++ paste_value value, filled_fields + 1))
          (acts, filled_fields) remaining_values in
  (acts ++ [Hotkey ["ctrl"; "tab"]], filled_fields).

(** The texts copied to the clipboard, and the clicks, of a list of
    actions. *)
Definition copied (acts : list Action) : list string :=
  omap (λ a, match a with Copy v => Some v | _ => None end) acts.

Definition clicks (acts : list Action) : list (Z * Z) :=
  omap (λ a, match a with Click x y => Some (x, y) | _ => None end) acts.

(** The value the page has for a field: the usable cell under the first
    column named for it. *)
Definition field_value (names : list string) (cols : list string)
    (selected_row : list string) : option string :=
  match row_cell cols selected_row (first_column names cols) with
  | Some v => if usable v then Some v else None
  | None => None
  end.

(** The card number of the row: under the card number column when there is
    one, else under the number column. *)
Definition card_value (cols : list string) (selected_row : list string)
    : option string :=
  match first_column card_number_names cols with
  | Some _ => field_value card_number_names cols selected_row
  | None => field_value number_names cols selected_row
  end.

Section TestCardFacts.

Lemma first_column_elem_of (names cols : list string) (col : string) :
  first_column names cols = Some col → col ∈ cols ∧ lower col ∈ names.
Proof.
  induction cols as [|c cols IH]; simpl; [done|].
  case_bool_decide as Hc.
  - intros [= ->]. split; [left|done].
  - intros [Hin Hl]%IH. split; [by right|done].
Qed.

Lemma row_cell_first_column (names cols row : list string) (col : string) :
  "" ∉ names →
  first_column names cols = Some col →
  ∃ v, row_cell cols row (Some col) = Some v.
Proof.
  intros Hn [Hin Hl]%first_column_elem_of. unfold row_cell.
  case_bool_decide as Hc.
  - subst col. by destruct Hn.
  - destruct (list_find (λ c', c' = col) cols) as [[i c']|] eqn:E.
    + by eexists.
    + apply list_find_None in E. rewrite Forall_forall in E.
      by destruct (E col Hin).
Qed.

Lemma opt_list_app (values : list string) (names cols row : list string) :
  match row_cell cols row (first_column names cols) with
  | Some v => append_usable values v
  | None => values
  end = values ++ option_list (field_value names cols row).
Proof.
  unfold field_value, append_usable.
  destruct (row_cell cols row (first_column names cols)) as [v|]; simpl.
  - destruct (usable v); simpl; [done|by rewrite app_nil_r].
  - by rewrite app_nil_r.
Qed.

(** The collected values are the values of the fields the row has, in the
    order of the form, with the cardholder name before the zip. *)
Lemma values_to_fill_fields (cols row : list string) :
  values_to_fill cols row
  = option_list (card_value cols row)
    ++ option_list (field_value expire_names cols row)
    ++ option_list (field_value cvv_names cols row)
    ++ ["Test User"]
    ++ option_list (field_value zip_names cols row).
Proof.
  unfold values_to_fill. cbv zeta.
  assert (match row_cell cols row (first_column card_number_names cols) with
          | Some card_value => append_usable [] card_value
          | None =>
              match row_cell cols row (first_column number_names cols) with
              | Some card_value => append_usable [] card_value
              | None => []
              end
          end = option_list (card_value cols row)) as ->.
  { unfold card_value.
    destruct (first_column card_number_names cols) as [c|] eqn:Ec.
    - destruct (row_cell_first_column card_number_names cols row c) as [v Hv];
        [by apply (bool_decide_unpack _) | done |].
      rewrite <- Ec in Hv. unfold field_value. rewrite Ec in *. rewrite Hv.
      unfold append_usable. by destruct (usable v).
    - simpl. rewrite (opt_list_app [] number_names). done. }
  rewrite !opt_list_app. by rewrite <- !app_assoc.
Qed.

End TestCardFacts.

Section FillFacts.

Lemma copied_app (a b : list Action) : copied (a ++ b) = copied a ++ copied b.
Proof. apply omap_app. Qed.

Lemma clicks_app (a b : list Action) : clicks (a ++ b) = clicks a ++ clicks b.
Proof. apply omap_app. Qed.

Lemma fill_remaining (acts : list Action) (n : nat) (values : list string) :
  foldl (λ '(acts, filled_fields) value,
           (acts ++ [Press "tab"] ++ paste_value value, filled_fields + 1))
        (acts, n) values
  = (acts ++ flat_map (λ value, Press "tab" :: paste_value value) values,
     n + length values).
Proof.
  revert acts n. induction values as [|v values IH]; intros acts n; simpl.
  - by rewrite app_nil_r, Nat.add_0_r.
  - rewrite IH. f_equal; [|lia]. by rewrite <- app_assoc.
Qed.

Lemma copied_remaining (values : list string) :
  copied (flat_map (λ value, Press "tab" :: paste_value value) values) = values.
Proof. induction values as [|v values IH]; simpl; [done|]. by rewrite IH. Qed.

Lemma clicks_remaining (values : list string) :
  clicks (flat_map (λ value, Press "tab" :: paste_value value) values) = [].
Proof. induction values as [|v values IH]; simpl; [done|]. by rewrite IH. Qed.

Lemma usable_nonempty (v : string) : usable v = true → v ≠ "".
Proof. unfold usable. intros [H _]%andb_true_iff. by case_bool_decide. Qed.

(** On values none of which is empty, with at least one of them, the form
    filling copies them all in order, clicks once, and counts them. *)
Lemma fill_form_nonempty (values : list string) (xy : Z * Z) :
  values ≠ [] → Forall (λ v, v ≠ "") values →
  copied (fill_form values xy).1 = values
  ∧ clicks (fill_form values xy).1 = [xy]
  ∧ (fill_form values xy).2 = length values.
Proof.
  intros Hne Hall. unfold fill_form. cbv zeta.
  destruct values as [|a [|b [|c rest]]]; [done| | |].
  - apply Forall_cons in Hall as [Ha _].
    simpl. rewrite (bool_decide_eq_false_2 _ Ha). simpl.
    by destruct xy.
  - apply Forall_cons in Hall as [Ha [Hb _]%Forall_cons].
    simpl. rewrite (bool_decide_eq_false_2 _ Ha), (bool_decide_eq_false_2 _ Hb).
    simpl. by destruct xy.
  - apply Forall_cons in Hall as [Ha [Hb [Hc _]%Forall_cons]%Forall_cons].
    unfold slot, truthy.
    change (0 <? length (a :: b :: c :: rest)) with true.
    change (1 <? length (a :: b :: c :: rest)) with true.
    change (2 <? length (a :: b :: c :: rest)) with true.
    cbn [lookup list_lookup default].
    rewrite (bool_decide_eq_false_2 _ Ha), (bool_decide_eq_false_2 _ Hb),
      (bool_decide_eq_false_2 _ Hc). cbn [negb].
    assert ((if 3 <? length (a :: b :: c :: rest)
             then drop 3 (a :: b :: c :: rest) else []) = rest) as ->.
    { destruct rest; reflexivity. }
    rewrite fill_remaining. cbn [fst snd].
    rewrite !copied_app, !clicks_app, copied_remaining, clicks_remaining.
    split_and!; [simpl; by rewrite app_nil_r|by destruct xy|simpl; lia].
Qed.

End FillFacts.

(** X18.  Whatever the frame and the selected row are, the values collected
    for the form are between one and five, none of them is empty or spells
    nan or none, and the cardholder name Test User is among them; the form
    filling then copies exactly these values to the clipboard, each once and
    in their order, between the switch to the other tab and the switch back,
    clicks once, at the place of the card number field, and its
    [filled_fields] is the number of the values. *)
Theorem test_card_pastes_collected_values (cols selected_row : list string)
    (card_number_xy : Z * Z) :
  let values := values_to_fill cols selected_row in
  let acts := (fill_form values card_number_xy).1 in
  1 ≤ length values ≤ 5
  ∧ Forall (λ v, usable v = true) values
  ∧ "Test User" ∈ values
  ∧ copied acts = values
  ∧ clicks acts = [card_number_xy]
  ∧ head acts = Some (Hotkey ["ctrl"; "tab"])
  ∧ last acts = Some (Hotkey ["ctrl"; "tab"])
  ∧ (fill_form values card_number_xy).2 = length values.
Proof.
  intros values acts.
  assert (values ≠ [] ∧ Forall (λ v, usable v = true) values
          ∧ "Test User" ∈ values ∧ length values ≤ 5) as (Hne & Hall & HT & Hlen).
  { subst values. rewrite values_to_fill_fields. split_and!.
    - intros H. apply (f_equal length) in H. rewrite !length_app in H.
      simpl in H. lia.
    - rewrite !Forall_app. unfold card_value, field_value.
      split_and!; repeat case_match; simplify_eq; simpl;
        repeat constructor; done.
    - rewrite !elem_of_app. do 3 right. left. by left.
    - rewrite !length_app.
      destruct (card_value cols selected_row),
        (field_value expire_names cols selected_row),
        (field_value cvv_names cols selected_row),
        (field_value zip_names cols selected_row); simpl; lia. }
  destruct (fill_form_nonempty values card_number_xy Hne) as (Hc & Hk & Hf).
  { eapply Forall_impl; [exact Hall|]. intros v. apply usable_nonempty. }
  split_and!; try done.
  - destruct values; [done|simpl; lia].
  - subst acts. unfold fill_form. cbv zeta.
    destruct (foldl _ _ _) as [acts' n] eqn:E. simpl.
    unfold slot in E. destruct values as [|a values]; [done|].
    apply Forall_cons in Hall as [Ha%usable_nonempty _].
    simpl in E. rewrite (bool_decide_eq_false_2 _ Ha) in E. simpl in E.
    rewrite fill_remaining in E.
    repeat case_match; simplify_eq; done.
  - subst acts. unfold fill_form. cbv zeta.
    destruct (foldl _ _ _) as [acts' n]. simpl. apply last_snoc.
Qed.

(** X19.  The form is filled by position: the first collected value goes to
    the card number field, the second to the expiration field, the third to
    the CVV field.  When the row has a usable card number, expiration date
    and CVV, these are the three values, followed by Test User.  A field the
    row has no usable value for is not skipped on the form: without a card
    number, the card number field receives the expiration date, or else the
    CVV, or else Test User; with a card number but no expiration date, the
    expiration field receives the CVV, or else Test User. *)
Theorem test_card_fields_by_position (cols selected_row : list string) :
  let values := values_to_fill cols selected_row in
  let expire := field_value expire_names cols selected_row in
  let cvv := field_value cvv_names cols selected_row in
  (∀ c e v : string,
     card_value cols selected_row = Some c → expire = Some e → cvv = Some v →
     slot values 0 = Some c ∧ slot values 1 = Some e ∧ slot values 2 = Some v
     ∧ slot values 3 = Some "Test User")
  ∧ (card_value cols selected_row = None →
     slot values 0 = Some (default (default "Test User" cvv) expire))
  ∧ (∀ c : string,
       card_value cols selected_row = Some c → expire = None →
       slot values 0 = Some c
       ∧ slot values 1 = Some (default "Test User" cvv)).
Proof.
  intros values expire cvv. subst values expire cvv.
  rewrite values_to_fill_fields. split_and!.
  - intros c e v -> -> ->. done.
  - intros ->.
    destruct (field_value expire_names cols selected_row),
      (field_value cvv_names cols selected_row); done.
  - intros c -> ->.
    destruct (field_value cvv_names cols selected_row); done.
Qed.

Lemma test_card_fields_by_position_witness :
  card_value ["Card Number"; "Expire"; "CVV"] ["4111"; "nan"; "123"]
  = Some "4111"
  ∧ field_value expire_names ["Card Number"; "Expire"; "CVV"]
      ["4111"; "nan"; "123"] = None
  ∧ slot (values_to_fill ["Card Number"; "Expire"; "CVV"]
            ["4111"; "nan"; "123"]) 1 = Some "123"
  ∧ card_value ["Number"; "Card Number"; "Expire"] ["4111"; "nan"; "12/30"]
    = None
  ∧ slot (values_to_fill ["Number"; "Card Number"; "Expire"]
            ["4111"; "nan"; "12/30"]) 0 = Some "12/30".
Proof.
  split_and!; [reflexivity|reflexivity| |reflexivity|].
  - exact (proj2 (proj2 (proj2 (test_card_fields_by_position
             ["Card Number"; "Expire"; "CVV"] ["4111"; "nan"; "123"]))
             "4111" eq_refl eq_refl)).
  - exact (proj1 (proj2 (test_card_fields_by_position
             ["Number"; "Card Number"; "Expire"] ["4111"; "nan"; "12/30"]))
             eq_refl).
Defined.

(** ** The place of the click *)

(** The part of the desktop the page works on: its origin and its size. *)
Record Screen : Type := {
  primary_x : Z;
  primary_y : Z;
  screen_width : Z;
  screen_height : Z
}.

(** One entry of the table [pytesseract.image_to_data] returns: the text of
    a word, its confidence and its box in the picture. *)
Record OcrWord : Type := {
  word_text : string;
  word_conf : Q;
  word_left : Z;
  word_top : Z;
  word_width : Z;
  word_height : Z
}.

(** [text_lower and data['conf'][i] > 30], and some search term, lower-cased,
    occurs in [text_lower]. *)
Definition word_matches (search_terms : list string) (w : OcrWord) : bool :=
  let text_lower := strip (lower (word_text w)) in
  negb (bool_decide (text_lower = ""))
  && negb (Qle_bool (word_conf w) (30 # 1))
  && existsb (λ term, contains (lower term) text_lower) search_terms.

(** [find_field_with_ocr]: [data] is what the recognition returned, [None]
    when it raised; the result is [None] for the pair (None, None). *)
Definition find_field_with_ocr (ocr_available : bool)
    (data : option (list OcrWord)) (search_terms : list string)
    (scr : Screen) : option (Z * Z) :=
  if negb ocr_available then None
  else
    match data with
    | None => None
    | Some words =>
        match List.find (word_matches search_terms) words with
        | None => None
        | Some w =>
            let x := (word_left w + word_width w / 2)%Z in
            let y := (word_top w + word_height w / 2)%Z in
            let field_x := (primary_x scr + x)%Z in
            let field_y := (primary_y scr + y)%Z in
            let field_x :=
              Z.max (primary_x scr)
                (Z.min (primary_x scr + screen_width scr - 1) field_x) in
            let field_y :=
              Z.max (primary_y scr)
                (Z.min (primary_y scr + screen_height scr - 1) field_y) in
            Some (field_x, field_y)
        end
    end.

(** Where the page clicks for the card number: where the recognition found
    the label, else a quarter down the middle of the screen. *)
Definition card_number_position (ocr_available : bool)
    (data : option (list OcrWord)) (scr : Screen) : Z * Z :=
  match find_field_with_ocr ocr_available data
          ["card number"; "cardnumber"] scr with
  | Some (card_number_x, card_number_y) => (card_number_x, card_number_y)
  | None =>
      ((primary_x scr + screen_width scr / 2)%Z,
       (primary_y scr + screen_height scr / 4)%Z)
  end.

(** The point lies on the screen. *)
Definition on_screen (scr : Screen) (xy : Z * Z) : Prop :=
  (primary_x scr ≤ xy.1 < primary_x scr + screen_width scr
   ∧ primary_y scr ≤ xy.2 < primary_y scr + screen_height scr)%Z.

Section ClickFacts.

Lemma find_field_with_ocr_on_screen (ocr_available : bool)
    (data : option (list OcrWord)) (search_terms : list string)
    (scr : Screen) (xy : Z * Z) :
  (1 ≤ screen_width scr)%Z → (1 ≤ screen_height scr)%Z →
  find_field_with_ocr ocr_available data search_terms scr = Some xy →
  on_screen scr xy.
Proof.
  intros Hw Hh. unfold find_field_with_ocr, on_screen.
  destruct ocr_available; [|done]. simpl.
  destruct data as [words|]; [|done].
  destruct (List.find _ words) as [w|]; [|done].
  intros [= <-]. simpl. lia.
Qed.

Lemma card_number_position_on_screen (ocr_available : bool)
    (data : option (list OcrWord)) (scr : Screen) :
  (1 ≤ screen_width scr)%Z → (1 ≤ screen_height scr)%Z →
  on_screen scr (card_number_position ocr_available data scr).
Proof.
  intros Hw Hh. unfold card_number_position.
  destruct (find_field_with_ocr _ _ _ _) as [[x y]|] eqn:E.
  - by apply (find_field_with_ocr_on_screen _ _ _ _ _ Hw Hh E).
  - unfold on_screen. simpl.
    pose proof (Z.div_pos (screen_width scr) 2).
    pose proof (Z.div_lt_upper_bound (screen_width scr) 2 (screen_width scr)).
    pose proof (Z.div_pos (screen_height scr) 4).
    pose proof (Z.div_lt_upper_bound (screen_height scr) 4 (screen_height scr)).
    lia.
Qed.

End ClickFacts.

(** X20.  On a screen at least one pixel wide and high, the click for the
    card number field lands on that screen, whatever the recognition reports
    (boxes outside the picture included) and also when it is unavailable,
    raises, or finds no label. *)
Theorem card_number_click_on_screen (ocr_available : bool)
    (data : option (list OcrWord)) (scr : Screen) :
  (1 ≤ screen_width scr)%Z → (1 ≤ screen_height scr)%Z →
  on_screen scr (card_number_position ocr_available data scr).
Proof. apply card_number_position_on_screen. Qed.

Lemma card_number_click_on_screen_witness :
  on_screen
    {| primary_x := 1920; primary_y := 0;
       screen_width := 1280; screen_height := 1024 |}
    (card_number_position true
       (Some [ {| word_text := "CardNumber:"; word_conf := 96 # 1;
                  word_left := 5000; word_top := (-40);
                  word_width := 61; word_height := 17 |} ])
       {| primary_x := 1920; primary_y := 0;
          screen_width := 1280; screen_height := 1024 |}).
Proof.
  apply card_number_click_on_screen; simpl; lia.
Defined.

(** Where the script runs: on Windows, with the two system metrics of the
    primary monitor when [win32api] can be imported; or elsewhere. *)
Inductive Platform : Type :=
  | Win32 (metrics : option (Z * Z))
  | OtherPlatform.

(** The screen the page takes for the one under the mouse, from the size
    [pyautogui.size()] reports and the position of the mouse. *)
Definition screen_geometry (platform : Platform)
    (virtual_width virtual_height : Z) (current_mouse_x current_mouse_y : Z)
    : Screen :=
  match platform with
  | Win32 (Some (primary_width, primary_height)) =>
      if (0 <=? current_mouse_x)%Z && (current_mouse_x <? primary_width)%Z
         && (0 <=? current_mouse_y)%Z && (current_mouse_y <? primary_height)%Z
      then {| primary_x := 0; primary_y := 0;
              screen_width := primary_width; screen_height := primary_height |}
      else {| primary_x := primary_width; primary_y := 0;
              screen_width := primary_width; screen_height := primary_height |}
  | Win32 None =>
      let common_primary_width := Z.min 1920 (virtual_width / 2) in
      if (current_mouse_x <? common_primary_width)%Z
      then {| primary_x := 0; primary_y := 0;
              screen_width := common_primary_width;
              screen_height := virtual_height |}
      else {| primary_x := common_primary_width; primary_y := 0;
              screen_width := virtual_width - common_primary_width;
              screen_height := virtual_height |}
  | OtherPlatform =>
      if (2000 <? current_mouse_x)%Z
      then {| primary_x := 1920; primary_y := 0;
              screen_width := virtual_width - 1920;
              screen_height := virtual_height |}
      else {| primary_x := 0; primary_y := 0;
              screen_width := virtual_width; screen_height := virtual_height |}
  end.

(** The two branches that go by rule of thumb, without the system metrics. *)
Definition by_heuristic (platform : Platform) : bool :=
  match platform with
  | Win32 (Some _) => false
  | Win32 None => true
  | OtherPlatform => true
  end.

(** X21.  Without the system metrics, and with the mouse inside the size
    reported for the desktop, the screen the page works on holds the mouse,
    lies inside the desktop at full height, and the click for the card
    number field lands inside the desktop, whatever the recognition
    reports. *)
Theorem screen_geometry_holds_mouse (platform : Platform)
    (virtual_width virtual_height current_mouse_x current_mouse_y : Z)
    (ocr_available : bool) (data : option (list OcrWord)) :
  by_heuristic platform = true →
  (0 ≤ current_mouse_x < virtual_width)%Z →
  (0 ≤ current_mouse_y < virtual_height)%Z →
  let scr := screen_geometry platform virtual_width virtual_height
               current_mouse_x current_mouse_y in
  let click := card_number_position ocr_available data scr in
  on_screen scr (current_mouse_x, current_mouse_y)
  ∧ (0 ≤ primary_x scr)%Z
  ∧ (primary_x scr + screen_width scr ≤ virtual_width)%Z
  ∧ primary_y scr = 0%Z ∧ screen_height scr = virtual_height
  ∧ (0 ≤ click.1 < virtual_width)%Z ∧ (0 ≤ click.2 < virtual_height)%Z.
Proof.
  intros Hp Hx Hy scr click.
  assert (on_screen scr (current_mouse_x, current_mouse_y)
          ∧ (0 ≤ primary_x scr)%Z
          ∧ (primary_x scr + screen_width scr ≤ virtual_width)%Z
          ∧ primary_y scr = 0%Z ∧ screen_height scr = virtual_height)
    as (Hm & H0 & Hw & Hy0 & Hh).
  { subst scr. unfold on_screen, screen_geometry.
    destruct platform as [[[pw ph]|]|]; [done| |].
    - cbv zeta.
      pose proof (Z.div_pos virtual_width 2).
      pose proof (Z.div_le_upper_bound virtual_width 2 virtual_width).
      destruct (Z.ltb_spec current_mouse_x (Z.min 1920 (virtual_width / 2)));
        simpl; lia.
    - destruct (Z.ltb_spec 2000 current_mouse_x); simpl; lia. }
  assert (on_screen scr click) as Hc.
  { unfold on_screen in Hm. simpl in Hm.
    apply card_number_position_on_screen; lia. }
  unfold on_screen in Hc. split_and!; try done; lia.
Qed.

Lemma screen_geometry_holds_mouse_witness :
  by_heuristic OtherPlatform = true
  ∧ screen_geometry OtherPlatform 3840 1080 2500 300
    = {| primary_x := 1920; primary_y := 0;
         screen_width := 1920; screen_height := 1080 |}
  ∧ on_screen (screen_geometry OtherPlatform 3840 1080 2500 300) (2500, 300)%Z.
Proof.
  split_and!; [reflexivity|reflexivity|].
  exact (proj1 (screen_geometry_holds_mouse OtherPlatform 3840 1080 2500 300
                  false None eq_refl ltac:(lia) ltac:(lia))).
Defined.

(** ** The number selection of app_fixed.py *)

(** A column before [astype(str)]: [None] is a missing value, [Some s] a
    value that reads [s] as text. *)
Definition dropna (series : list (option string)) : list string :=
  omap id series.

Definition astype_str (series : list (option string)) : list string :=
  default "nan" <$> series.

(** The order of [sorted] on texts. *)
Definition str_le (a b : string) : Prop := String.leb a b = true.

#[global] Instance str_le_dec : RelDecision str_le.
Proof. intros a b. unfold str_le. apply _. Defined.

#[global] Instance str_le_total : Total str_le.
Proof. intros a b. apply String.leb_total. Qed.

(** The numbers the page offers: the column without its missing values, as
    text, trimmed, without the empty texts, each once, sorted. *)
Definition available_numbers (series : list (option string)) : list string :=
  let available_numbers := str_strip (dropna series) in
  let available_numbers :=
    unique (filter (λ n, n ≠ "") available_numbers) in
  merge_sort str_le available_numbers.

(** [df[df[number_col].astype(str).str.strip() == selected_number].iloc[0]],
    over a frame and its number column. *)
Definition selected_row (data : DataFrame) (series : list (option string))
    (selected_number : string) : indexed (list string) :=
  let mask :=
    (λ n, bool_decide (n = selected_number))
      <$> str_strip (astype_str series) in
  getitem_list (rows (select mask data)) 0.

Section NumberFacts.

Lemma elem_of_dropna (series : list (option string)) (s : string) :
  s ∈ dropna series ↔ Some s ∈ series.
Proof.
  unfold dropna. rewrite list_elem_of_omap. split.
  - by intros ([s'|] & Hin & [= ->]).
  - intros Hin. by exists (Some s).
Qed.

Lemma elem_of_available_numbers (series : list (option string)) (n : string) :
  n ∈ available_numbers series ↔
    n ≠ "" ∧ ∃ s : string, Some s ∈ series ∧ strip s = n.
Proof.
  unfold available_numbers, str_strip.
  rewrite merge_sort_Permutation, elem_of_unique, list_elem_of_filter,
    list_elem_of_fmap.
  split.
  - intros (Hn & s & -> & Hs%elem_of_dropna). split; [done|]. by exists s.
  - intros (Hn & s & Hs & <-). split; [done|]. exists s.
    split; [done|]. by apply elem_of_dropna.
Qed.

(** The first row at which the mask holds is the first row selected. *)
Lemma select_head {A : Type} (l : list A) (mask : list bool) (i : nat) :
  length l = length mask → mask !! i = Some true →
  ∃ (j : nat) (x : A),
    j ≤ i ∧ mask !! j = Some true ∧ (∀ k, k < j → mask !! k = Some false)
    ∧ l !! j = Some x
    ∧ (fst <$> filter (λ rm : A * bool, rm.2 = true) (zip l mask)) !! 0
      = Some x.
Proof.
  revert mask i. induction l as [|x l IH]; intros [|m mask] i Hlen Hi;
    simplify_eq/=.
  destruct m.
  - exists 0, x. split_and!; [lia|done|intros k; lia|done|].
    by rewrite filter_cons_True.
  - destruct i as [|i]; [done|]. simpl in Hi.
    destruct (IH mask i Hlen Hi) as (j & y & Hj & Hmj & Hlt & Hy & Hh).
    exists (S j), y. split_and!; [lia|done| |done|].
    + intros [|k] Hk; [done|]. simpl. apply Hlt. lia.
    + by rewrite filter_cons_False.
Qed.

End NumberFacts.


